(** * Patient queue and status-transition engine (backend/routers/patients.py)

    A shallow embedding of the request handlers of the patients router:
    token allocation, registration, OPD allocation, status update, referral,
    visit completion and the two listing queries, over an explicit model of
    the three tables they read and write (Patient, Queue, PatientFlow). *)

From Stdlib Require Import ZArith Ascii String DecimalString DecimalNat.
From stdpp Require Import base decidable option list strings sorting.

Local Open Scope string_scope.
Local Open Scope list_scope.
Local Open Scope Z_scope.

(** ** Text helpers used by the token allocator *)

Module Text.

(** SQL [token LIKE 'today%'] for a pattern without wildcards: [pre] is a
    prefix of [s].  [strftime("%Y%m%d")] yields decimal digits only. *)
Fixpoint startswith (pre s : string) : bool :=
  match pre, s with
  | EmptyString, _ => true
  | String a pre', String b s' => Ascii.eqb a b && startswith pre' s'
  | String _ _, EmptyString => false
  end.

(** A run of the digits 0 to 9, as [strftime("%Y%m%d")] writes a date. *)
Fixpoint all_digits (s : string) : bool :=
  match s with
  | EmptyString => true
  | String c s' =>
      (Nat.leb 48 (nat_of_ascii c) && Nat.leb (nat_of_ascii c) 57)
      && all_digits s'
  end.

(** Python [s.split(sep)] for a one-character separator. *)
Fixpoint split (sep : ascii) (s : string) : list string :=
  match s with
  | EmptyString => [EmptyString]
  | String c s' =>
      if Ascii.eqb c sep then EmptyString :: split sep s'
      else match split sep s' with
           | w :: ws => String c w :: ws
           | [] => [String c EmptyString]
           end
  end.

(** Python [xs[-1]] on the (never empty) result of [split]. *)
Definition last_item (xs : list string) : string := List.last xs EmptyString.

(** Python [int(s)] on the strings the allocator writes and reads back: a
    non-empty run of the digits 0 to 9 gives its value (leading zeros
    allowed).  On every other string the model gives [None].  Python raises
    ValueError on most of them, but it parses some forms that no token
    written by the allocator has (a sign, white space around the number,
    underscores between digits, digits outside ASCII) and refuses runs of
    more than 4300 digits; a statement about a table that the handlers did
    not build takes as a hypothesis that the part parsed is a run of fewer
    than 4300 digits. *)
Definition int (s : string) : option nat :=
  Nat.of_uint <$> NilZero.uint_of_string s.

Fixpoint zeros (k : nat) : string :=
  match k with
  | O => EmptyString
  | S k' => String "0" (zeros k')
  end.

Definition decimal (n : nat) : string := NilEmpty.string_of_uint (Nat.to_uint n).

(** Python format spec [{n:04d}] for a non-negative [n]: decimal digits,
    padded on the left with zeros up to width 4 (longer numbers are kept
    whole). *)
Definition fmt_04d (n : nat) : string :=
  let d := decimal n in zeros (4 - String.length d) +:+ d.

End Text.

Example fmt_04d_1 : Text.fmt_04d 1 = "0001".
Proof. reflexivity. Qed.

Example fmt_04d_10000 : Text.fmt_04d (10 * 1000) = "10000".
Proof. reflexivity. Qed.

Example int_0042 : Text.int "0042" = Some 42%nat.
Proof. reflexivity. Qed.

Example int_empty : Text.int "" = None.
Proof. reflexivity. Qed.

Example split_last_token :
  Text.last_item (Text.split "-" "20240101-0007") = "0007".
Proof. reflexivity. Qed.

(** ** Data model *)

(** Timestamps ([datetime] values), as a totally ordered scalar. *)
Definition Time := Z.

(** Modelled from the spec: the enum [PatientStatus] is declared in
    database_sqlite, which is not part of the sources at hand.  The router
    names PENDING, DILATED, REFERRED and COMPLETED; the remaining,
    domain-specific members are kept apart by their name. *)
Inductive PatientStatus :=
| PENDING
| DILATED
| REFERRED
| COMPLETED
| OTHER (name : string).

#[global] Instance PatientStatus_eq_dec : EqDecision PatientStatus.
Proof. solve_decision. Defined.

(** The enum [OPDType] is declared in database_sqlite as well.  The router
    uses three things of it: equality of members, iteration over the members
    ([{opd.value for opd in OPDType}]) and the string [.value] of a member.
    Members are truthy, as members of an [Enum] with non-empty values are. *)
Class OPDEnum (OPD : Type) := {
  opd_eq_dec :: EqDecision OPD;
  members : list OPD;
  value : OPD → string;
}.

Module Patient.
Record t {OPD : Type} := mk {
  id : Z;
  token_number : string;
  name : string;
  age : Z;
  phone : option string;
  registration_time : Time;
  current_status : PatientStatus;
  allocated_opd : option OPD;
  current_room : option string;
  is_dilated : bool;
  dilation_time : option Time;
  referred_from : option string;
  referred_to : option string;
  completed_at : option Time;
}.
Arguments t : clear implicits.
Arguments mk {OPD}.
End Patient.

Module Queue.
(** The row's place in the table stands for its primary key: rows are kept
    in insertion order, which is the order an unordered [.first()] and a
    bulk delete see them in. *)
Record t {OPD : Type} := mk {
  opd_type : OPD;
  patient_id : Z;
  position : Z;
  status : PatientStatus;
  updated_at : option Time;
}.
Arguments t : clear implicits.
Arguments mk {OPD}.
End Queue.

Module PatientFlow.
Record t := mk {
  patient_id : Z;
  from_room : option string;
  to_room : option string;
  status : PatientStatus;
  notes : option string;
}.
End PatientFlow.

(** The request bodies. *)
Record PatientCreate := {
  pc_name : string;
  pc_age : Z;
  pc_phone : option string;
}.

Record ReferredPatientResponse := {
  rp_id : Z;
  rp_token_number : string;
  rp_name : string;
  rp_age : Z;
  rp_registration_time : Time;
  rp_from_opd : option string;
  rp_to_opd : option string;
}.

(** The session's view of the database: the three tables, rows in insertion
    order. *)
Record DB {OPD : Type} := mkDB {
  patients : list (Patient.t OPD);
  queue : list (Queue.t OPD);
  patient_flow : list PatientFlow.t;
}.
Arguments DB : clear implicits.
Arguments mkDB {OPD}.

Definition empty_db {OPD : Type} : DB OPD := mkDB [] [] [].

(** What a handler can raise. *)
Inductive error :=
| HTTP404 (detail : string)
| ValueError.

Inductive result (A : Type) :=
| Ok (a : A)
| Raise (e : error).
Arguments Ok {A}.
Arguments Raise {A}.

#[global] Instance result_ret : MRet result := λ A a, Ok a.
#[global] Instance result_bind : MBind result := λ A B f m,
  match m with
  | Ok a => f a
  | Raise e => Raise e
  end.

#[global] Instance result_fmap : FMap result := λ A B f m,
  match m with
  | Ok a => Ok (f a)
  | Raise e => Raise e
  end.

(** ** Query primitives *)

Section Query.
Context {A : Type}.

(** [query.order_by(key.asc())] and [query.order_by(key.desc())]; rows with
    equal keys come out in some order, here the one of a merge sort. *)
Definition asc (key : A → Z) : relation A := λ a b, key a ≤ key b.

Definition desc (key : A → Z) : relation A := λ a b, key b ≤ key a.

#[global] Instance asc_dec key : RelDecision (asc key).
Proof. intros a b. unfold asc. apply _. Defined.

#[global] Instance desc_dec key : RelDecision (desc key).
Proof. intros a b. unfold desc. apply _. Defined.

Definition order_by_asc (key : A → Z) (l : list A) : list A :=
  merge_sort (asc key) l.

Definition order_by_desc (key : A → Z) (l : list A) : list A :=
  merge_sort (desc key) l.

(** [query.first()]. *)
Definition first (l : list A) : option A := head l.

(** [query.offset(n)] and [query.limit(n)] as SQLite evaluates them: a
    negative offset skips nothing, a negative limit is no limit. *)
Definition offset (n : Z) (l : list A) : list A := drop (Z.to_nat n) l.

Definition limit (n : Z) (l : list A) : list A :=
  if decide (n < 0) then l else take (Z.to_nat n) l.

(** Assignment to attributes of the row that [query.first()] returned: only
    the first row that satisfies [P] is changed. *)
Fixpoint update_first (P : A → Prop) `{∀ x, Decision (P x)} (f : A → A)
    (l : list A) : list A :=
  match l with
  | [] => []
  | x :: l' => if decide (P x) then f x :: l' else x :: update_first P f l'
  end.

End Query.

(** [func.max(column)] over the selected rows: NULL ([None]) when there are
    none. *)
Definition func_max (l : list Z) : option Z :=
  match l with
  | [] => None
  | x :: l' => Some (foldl Z.max x l')
  end.

(** Python [v or 0] for an optional integer. *)
Definition or_0 (v : option Z) : Z :=
  match v with
  | Some n => if decide (n = 0) then 0 else n
  | None => 0
  end.

(** Modelled from the spec: the storage engine gives a new Patient row the
    next integer primary key, one above the largest key in the table (the
    table declaration is in database_sqlite). *)
Definition next_id {OPD : Type} (ps : list (Patient.t OPD)) : Z :=
  or_0 (func_max (Patient.id <$> ps)) + 1.

(** ** Attribute assignment on a Patient row and on a Queue row *)

Section Setters.
Context {OPD : Type}.
Implicit Types (p : Patient.t OPD) (q : Queue.t OPD).

Definition set_current_status (v : PatientStatus) p : Patient.t OPD :=
  Patient.mk (Patient.id p) (Patient.token_number p) (Patient.name p)
    (Patient.age p) (Patient.phone p) (Patient.registration_time p)
    v (Patient.allocated_opd p) (Patient.current_room p)
    (Patient.is_dilated p) (Patient.dilation_time p)
    (Patient.referred_from p) (Patient.referred_to p) (Patient.completed_at p).

Definition set_allocated_opd (v : option OPD) p : Patient.t OPD :=
  Patient.mk (Patient.id p) (Patient.token_number p) (Patient.name p)
    (Patient.age p) (Patient.phone p) (Patient.registration_time p)
    (Patient.current_status p) v (Patient.current_room p)
    (Patient.is_dilated p) (Patient.dilation_time p)
    (Patient.referred_from p) (Patient.referred_to p) (Patient.completed_at p).

Definition set_current_room (v : option string) p : Patient.t OPD :=
  Patient.mk (Patient.id p) (Patient.token_number p) (Patient.name p)
    (Patient.age p) (Patient.phone p) (Patient.registration_time p)
    (Patient.current_status p) (Patient.allocated_opd p) v
    (Patient.is_dilated p) (Patient.dilation_time p)
    (Patient.referred_from p) (Patient.referred_to p) (Patient.completed_at p).

Definition set_is_dilated (v : bool) p : Patient.t OPD :=
  Patient.mk (Patient.id p) (Patient.token_number p) (Patient.name p)
    (Patient.age p) (Patient.phone p) (Patient.registration_time p)
    (Patient.current_status p) (Patient.allocated_opd p)
    (Patient.current_room p) v (Patient.dilation_time p)
    (Patient.referred_from p) (Patient.referred_to p) (Patient.completed_at p).

Definition set_dilation_time (v : option Time) p : Patient.t OPD :=
  Patient.mk (Patient.id p) (Patient.token_number p) (Patient.name p)
    (Patient.age p) (Patient.phone p) (Patient.registration_time p)
    (Patient.current_status p) (Patient.allocated_opd p)
    (Patient.current_room p) (Patient.is_dilated p) v
    (Patient.referred_from p) (Patient.referred_to p) (Patient.completed_at p).

Definition set_referred_from (v : option string) p : Patient.t OPD :=
  Patient.mk (Patient.id p) (Patient.token_number p) (Patient.name p)
    (Patient.age p) (Patient.phone p) (Patient.registration_time p)
    (Patient.current_status p) (Patient.allocated_opd p)
    (Patient.current_room p) (Patient.is_dilated p) (Patient.dilation_time p)
    v (Patient.referred_to p) (Patient.completed_at p).

Definition set_referred_to (v : option string) p : Patient.t OPD :=
  Patient.mk (Patient.id p) (Patient.token_number p) (Patient.name p)
    (Patient.age p) (Patient.phone p) (Patient.registration_time p)
    (Patient.current_status p) (Patient.allocated_opd p)
    (Patient.current_room p) (Patient.is_dilated p) (Patient.dilation_time p)
    (Patient.referred_from p) v (Patient.completed_at p).

Definition set_completed_at (v : option Time) p : Patient.t OPD :=
  Patient.mk (Patient.id p) (Patient.token_number p) (Patient.name p)
    (Patient.age p) (Patient.phone p) (Patient.registration_time p)
    (Patient.current_status p) (Patient.allocated_opd p)
    (Patient.current_room p) (Patient.is_dilated p) (Patient.dilation_time p)
    (Patient.referred_from p) (Patient.referred_to p) v.

Definition set_status (v : PatientStatus) q : Queue.t OPD :=
  Queue.mk (Queue.opd_type q) (Queue.patient_id q) (Queue.position q) v
    (Queue.updated_at q).

Definition set_updated_at (v : option Time) q : Queue.t OPD :=
  Queue.mk (Queue.opd_type q) (Queue.patient_id q) (Queue.position q)
    (Queue.status q) v.

End Setters.

(** ** The handlers *)

Section Engine.
Context `{OPDEnum OPD}.
Implicit Types (db : DB OPD) (p : Patient.t OPD) (q : Queue.t OPD).

(** [db.query(Patient).filter(Patient.id == patient_id).first()] *)
Definition get_patient (patient_id : Z) db : option (Patient.t OPD) :=
  first (filter (λ p, Patient.id p = patient_id) (patients db)).

(** The session writes the changed attributes of the loaded Patient object
    back to its row, the one with that primary key. *)
Definition save_patient (patient : Patient.t OPD)
    (ps : list (Patient.t OPD)) : list (Patient.t OPD) :=
  (λ p, if decide (Patient.id p = Patient.id patient) then patient else p) <$> ps.

(** The rows of [Queue] for one patient in one department:
    [Queue.patient_id == patient_id, Queue.opd_type == opd]. *)
Definition entry_of (patient_id : Z) (opd : OPD) q : Prop :=
  Queue.patient_id q = patient_id ∧ Queue.opd_type q = opd.

(** The same with an optional department on the right-hand side, as in
    [Queue.opd_type == patient.allocated_opd]: no row has a NULL
    department, so nothing is selected for [None]. *)
Definition entry_of_opt (patient_id : Z) (opd : option OPD) q : Prop :=
  Queue.patient_id q = patient_id ∧ Some (Queue.opd_type q) = opd.

#[global] Instance entry_of_dec patient_id opd q :
  Decision (entry_of patient_id opd q).
Proof. unfold entry_of. apply _. Defined.

#[global] Instance entry_of_opt_dec patient_id opd q :
  Decision (entry_of_opt patient_id opd q).
Proof. unfold entry_of_opt. apply _. Defined.

(** [db.query(func.max(Queue.position)).filter(Queue.opd_type == opd).scalar() or 0] *)
Definition max_position (opd : OPD) (qs : list (Queue.t OPD)) : Z :=
  or_0 (func_max (Queue.position <$> filter (λ q, Queue.opd_type q = opd) qs)).

Definition room_of (opd : OPD) : string := "opd_" +:+ value opd.

Definition generate_token_number (today : string) db : result string :=
  let last_token :=
    first (order_by_desc Patient.id
             (filter (λ p, Text.startswith today (Patient.token_number p))
                     (patients db))) in
  match last_token with
  | Some last =>
      match Text.int (Text.last_item (Text.split "-" (Patient.token_number last))) with
      | Some last_number =>
          Ok (today +:+ "-" +:+ Text.fmt_04d (last_number + 1))
      | None => Raise ValueError
      end
  | None => Ok (today +:+ "-" +:+ Text.fmt_04d 1)
  end.

(** Modelled from the spec: the columns that [register_patient] does not
    pass take the defaults of the table declaration (database_sqlite):
    status PENDING, not dilated, every optional column empty. *)
Definition new_patient (id : Z) (token_number : string)
    (patient_data : PatientCreate) (now : Time) : Patient.t OPD :=
  Patient.mk id token_number (pc_name patient_data) (pc_age patient_data)
    (pc_phone patient_data) now PENDING None None false None None None None.

(** [today] is [datetime.now().strftime("%Y%m%d")] as read by the token
    allocator, [now] the later [datetime.now()] of the registration time. *)
Definition register_patient (patient_data : PatientCreate) (today : string)
    (now : Time) db : result (Patient.t OPD * DB OPD) :=
  token_number ← generate_token_number today db;
  let db_patient :=
    new_patient (next_id (patients db)) token_number patient_data now in
  let flow_entry :=
    PatientFlow.mk (Patient.id db_patient) None (Some "registration") PENDING None in
  Ok (db_patient,
      mkDB (patients db ++ [db_patient]) (queue db)
           (patient_flow db ++ [flow_entry])).

(** Returns the [queue_position] of the response. *)
Definition allocate_opd (patient_id : Z) (opd_type : OPD) db
    : result (Z * DB OPD) :=
  match get_patient patient_id db with
  | None => Raise (HTTP404 "Patient not found")
  | Some patient =>
      let patient := set_allocated_opd (Some opd_type) patient in
      let patient := set_current_room (Some (room_of opd_type)) patient in
      let max_position := max_position opd_type (queue db) in
      let queue_entry :=
        Queue.mk opd_type patient_id (max_position + 1) PENDING None in
      let flow_entry :=
        PatientFlow.mk patient_id (Some "registration")
          (Some (room_of opd_type)) PENDING None in
      Ok (max_position + 1,
          mkDB (save_patient patient (patients db))
               (queue db ++ [queue_entry])
               (patient_flow db ++ [flow_entry]))
  end.

(** [now] is the [datetime.utcnow()] of the special case taken, [now'] the
    one written to the queue entry. *)
Definition update_patient_status (patient_id : Z) (status : PatientStatus)
    (notes : option string) (now now' : Time) db : result (DB OPD) :=
  match get_patient patient_id db with
  | None => Raise (HTTP404 "Patient not found")
  | Some patient =>
      let patient := set_current_status status patient in
      let '(patient, qs) :=
        if decide (status = DILATED) then
          (set_dilation_time (Some now) (set_is_dilated true patient), queue db)
        else if decide (status = COMPLETED) then
          (set_completed_at (Some now) patient,
           filter (λ q, ¬ entry_of_opt patient_id (Patient.allocated_opd patient) q)
                  (queue db))
        else (patient, queue db) in
      let sel := entry_of_opt patient_id (Patient.allocated_opd patient) in
      let qs :=
        match first (filter sel qs) with
        | Some _ =>
            update_first sel (λ q, set_updated_at (Some now') (set_status status q)) qs
        | None => qs
        end in
      let flow_entry :=
        PatientFlow.mk patient_id (Patient.current_room patient) None status notes in
      Ok (mkDB (save_patient patient (patients db)) qs
               (patient_flow db ++ [flow_entry]))
  end.

Definition refer_patient (patient_id : Z) (to_opd : OPD) db : result (DB OPD) :=
  match get_patient patient_id db with
  | None => Raise (HTTP404 "Patient not found")
  | Some patient =>
      let from_opd := Patient.allocated_opd patient in
      let patient := set_referred_from (value <$> from_opd) patient in
      let patient := set_referred_to (Some (value to_opd)) patient in
      let patient := set_current_status REFERRED patient in
      let qs :=
        match from_opd with
        | Some from =>
            match first (filter (entry_of patient_id from) (queue db)) with
            | Some _ =>
                update_first (entry_of patient_id from) (set_status REFERRED) (queue db)
            | None => queue db
            end
        | None => queue db
        end in
      let qs :=
        match first (filter (entry_of patient_id to_opd) qs) with
        | None =>
            let max_position_to := max_position to_opd qs in
            qs ++ [Queue.mk to_opd patient_id (max_position_to + 1) REFERRED None]
        | Some _ =>
            update_first (entry_of patient_id to_opd) (set_status REFERRED) qs
        end in
      let flow_entry :=
        PatientFlow.mk patient_id (room_of <$> from_opd)
          (Some (room_of to_opd)) REFERRED
          (Some ("Referred from " +:+ from_option value "registration" from_opd
                 +:+ " to " +:+ value to_opd)) in
      Ok (mkDB (save_patient patient (patients db)) qs
               (patient_flow db ++ [flow_entry]))
  end.

(** [patient.status = ...] in the source sets an attribute that is not a
    column of the table; it leaves no trace in the database. *)
Definition end_patient_visit (patient_id : Z) (now : Time) db
    : result (DB OPD) :=
  match get_patient patient_id db with
  | None => Raise (HTTP404 "Patient not found")
  | Some patient =>
      let from_room := Patient.current_room patient in
      let patient := set_current_status COMPLETED patient in
      let patient := set_completed_at (Some now) patient in
      let patient := set_current_room None patient in
      let patient := set_allocated_opd None patient in
      let patient := set_referred_from None patient in
      let patient := set_referred_to None patient in
      let qs := filter (λ q, Queue.patient_id q ≠ patient_id) (queue db) in
      let flow_entry :=
        PatientFlow.mk patient_id from_room (Some "completed") COMPLETED
          (Some "Patient visit completed") in
      Ok (mkDB (save_patient patient (patients db)) qs
               (patient_flow db ++ [flow_entry]))
  end.

(** [status] and [latest] are tested for truth: a status member is truthy,
    an absent parameter and [False] are not. *)
Definition get_patients (skip limit_ : Z) (status : option PatientStatus)
    (latest : option bool) db : list (Patient.t OPD) :=
  let query :=
    match status with
    | Some s => filter (λ p, Patient.current_status p = s) (patients db)
    | None => patients db
    end in
  match latest with
  | Some true => limit 5 (order_by_desc Patient.registration_time query)
  | _ => limit limit_ (offset skip (order_by_desc Patient.registration_time query))
  end.

Definition truthy (s : string) : bool :=
  match s with
  | EmptyString => false
  | _ => true
  end.

Definition valid_opds : list string := value <$> members.

Definition referred_response p : ReferredPatientResponse :=
  Build_ReferredPatientResponse (Patient.id p) (Patient.token_number p)
    (Patient.name p) (Patient.age p) (Patient.registration_time p)
    (Patient.referred_from p) (Patient.referred_to p).

(** The rows selected by [list_referred_patients], before the mapping to the
    response model. *)
Definition referred_rows (from_opd to_opd : option string) db
    : list (Patient.t OPD) :=
  let query := filter (λ p, Patient.current_status p = REFERRED) (patients db) in
  let query :=
    match from_opd with
    | Some f =>
        if truthy f && bool_decide (f ∈ valid_opds)
        then filter (λ p, Patient.referred_from p = Some f) query
        else query
    | None => query
    end in
  let query :=
    match to_opd with
    | Some t =>
        if truthy t && bool_decide (t ∈ valid_opds)
        then filter (λ p, Patient.referred_to p = Some t) query
        else query
    | None => query
    end in
  order_by_asc Patient.registration_time query.

Definition list_referred_patients (from_opd to_opd : option string) db
    : list ReferredPatientResponse :=
  referred_response <$> referred_rows from_opd to_opd db.

(** One request to a handler that writes. *)
Inductive request :=
| Register (patient_data : PatientCreate) (today : string) (now : Time)
| AllocateOPD (patient_id : Z) (opd_type : OPD)
| UpdateStatus (patient_id : Z) (status : PatientStatus)
    (notes : option string) (now now' : Time)
| Refer (patient_id : Z) (to_opd : OPD)
| EndVisit (patient_id : Z) (now : Time).

Definition handle (r : request) db : result (DB OPD) :=
  match r with
  | Register patient_data today now =>
      snd <$> register_patient patient_data today now db
  | AllocateOPD patient_id opd_type =>
      snd <$> allocate_opd patient_id opd_type db
  | UpdateStatus patient_id status notes now now' =>
      update_patient_status patient_id status notes now now' db
  | Refer patient_id to_opd => refer_patient patient_id to_opd db
  | EndVisit patient_id now => end_patient_visit patient_id now db
  end.

(** A request that raises is rolled back: the database stays as it was. *)
Definition serve (db : DB OPD) (r : request) : DB OPD :=
  match handle r db with
  | Ok db' => db'
  | Raise _ => db
  end.

Definition run (rs : list request) (db : DB OPD) : DB OPD := foldl serve db rs.

(** The patient a request is about ([None] for a registration). *)
Definition target (r : request) : option Z :=
  match r with
  | Register _ _ _ => None
  | AllocateOPD patient_id _ => Some patient_id
  | UpdateStatus patient_id _ _ _ _ => Some patient_id
  | Refer patient_id _ => Some patient_id
  | EndVisit patient_id _ => Some patient_id
  end.

(** The row a request leaves for the patient it found as [p]; a summary of
    the assignments in the handlers, justified by [handle_patients]. *)
Definition written (r : request) p : Patient.t OPD :=
  match r with
  | Register _ _ _ => p
  | AllocateOPD _ opd_type =>
      set_current_room (Some (room_of opd_type))
        (set_allocated_opd (Some opd_type) p)
  | UpdateStatus _ status _ now _ =>
      if decide (status = DILATED) then
        set_dilation_time (Some now)
          (set_is_dilated true (set_current_status status p))
      else if decide (status = COMPLETED) then
        set_completed_at (Some now) (set_current_status status p)
      else set_current_status status p
  | Refer _ to_opd =>
      set_current_status REFERRED
        (set_referred_to (Some (value to_opd))
           (set_referred_from (value <$> Patient.allocated_opd p) p))
  | EndVisit _ now =>
      set_referred_to None
        (set_referred_from None
           (set_allocated_opd None
              (set_current_room None
                 (set_completed_at (Some now)
                    (set_current_status COMPLETED p)))))
  end.

(** The queue table after [refer_patient] has marked the patient's entry in
    the origin department, if there is a department and an entry. *)
Definition origin_marked (patient_id : Z) (from_opd : option OPD)
    (qs : list (Queue.t OPD)) : list (Queue.t OPD) :=
  match from_opd with
  | Some from => update_first (entry_of patient_id from) (set_status REFERRED) qs
  | None => qs
  end.

(** The primary key of the Patient table. *)
Definition primary_key db : Prop := NoDup (Patient.id <$> patients db).


(** What a registration writes of a patient and no handler assigns again. *)
Definition registered_as p : Z * string * string * Z * option string * Time :=
  (Patient.id p, Patient.token_number p, Patient.name p, Patient.age p,
   Patient.phone p, Patient.registration_time p).

(** The filter value that [list_referred_patients] applies: a non-empty
    string that is the value of a department; any other is dropped. *)
Definition filter_in_effect (v : option string) : option string :=
  match v with
  | Some s => if truthy s && bool_decide (s ∈ valid_opds) then Some s else None
  | None => None
  end.

(** The requests that put a patient into a queue: an allocation and a
    referral of that patient. *)
Definition readmits (patient_id : Z) (r : request) : Prop :=
  match r with
  | AllocateOPD pid _ => pid = patient_id
  | Refer pid _ => pid = patient_id
  | _ => False
  end.

(** The day a registration request is served on. *)
Definition registration_day (r : request) : option string :=
  match r with
  | Register _ today _ => Some today
  | _ => None
  end.

(** [strftime("%Y%m%d")] writes a day with eight characters. *)
Definition well_dated (r : request) : Prop :=
  match r with
  | Register _ today _ => String.length today = 8%nat
  | _ => True
  end.

End Engine.

Arguments request : clear implicits.

(** ** An instance to run the handlers on

    The two departments of the scenarios of the specification. *)

Inductive ScenarioOPD := eye | ent.

Definition ScenarioOPD_eq_dec : EqDecision ScenarioOPD.
Proof. solve_decision. Defined.

#[global] Instance ScenarioOPD_enum : OPDEnum ScenarioOPD := {|
  opd_eq_dec := ScenarioOPD_eq_dec;
  members := [eye; ent];
  value := λ o, match o with eye => "eye" | ent => "ent" end;
|}.

Definition asha : PatientCreate := Build_PatientCreate "Asha" 30 None.

Definition registered_db : DB ScenarioOPD :=
  run [Register asha "20240101" 10] empty_db.

Definition allocated_db : DB ScenarioOPD :=
  run [AllocateOPD 1 eye] registered_db.

Definition referred_db : DB ScenarioOPD :=
  run [Refer 1 ent] allocated_db.


Definition completed_db : DB ScenarioOPD :=
  run [UpdateStatus 1 COMPLETED None 20 21] allocated_db.

(** Ten registrations on one day, at times 101 to 110. *)
Definition ten_db : DB ScenarioOPD :=
  run ((λ i, Register asha "20240101" (100 + Z.of_nat i)) <$> seq 1 10)
      empty_db.

(** Three patients registered, the first allocated to "eye". *)
Definition three_db : DB ScenarioOPD :=
  run [Register asha "20240101" 10; Register asha "20240101" 11;
       Register asha "20240101" 12; AllocateOPD 1 eye] empty_db.

(** A table that no run of the handlers builds: the later row carries the
    lower number. *)
Definition out_of_order_db : DB ScenarioOPD :=
  mkDB [new_patient 1 "20240101-0005" asha 10;
        new_patient 2 "20240101-0002" asha 11] [] [].

(** ** The statements the properties are about *)

Section Statements.
Context {OPD : Type}.
Implicit Types (db : DB OPD) (p : Patient.t OPD) (q : Queue.t OPD).

Definition all_cleared p : Prop :=
  Patient.allocated_opd p = None ∧ Patient.current_room p = None ∧
  Patient.referred_from p = None ∧ Patient.referred_to p = None.

(** The three-way equivalence of the data model's invariant. *)
Definition completion_equiv p : Prop :=
  (is_Some (Patient.completed_at p) ↔ Patient.current_status p = COMPLETED) ∧
  (Patient.current_status p = COMPLETED ↔ all_cleared p).

(** Its part that the handlers keep. *)
Definition completed_is_stamped db : Prop :=
  ∀ p, p ∈ patients db →
       Patient.current_status p = COMPLETED → is_Some (Patient.completed_at p).

(** What identifies a queue entry and ranks it: department, patient and
    position. *)
Definition slot q : OPD * Z * Z :=
  (Queue.opd_type q, Queue.patient_id q, Queue.position q).

(** The token of sequence number [n] on [day]. *)
Definition token_of (day : string) (n : nat) : string :=
  day +:+ "-" +:+ Text.fmt_04d n.

(** The sequence number the allocator reads from a token. *)
Definition token_seq (token_number : string) : option nat :=
  Text.int (Text.last_item (Text.split "-" token_number)).

(** The rows the allocator selects: the patients whose token has the date
    prefix [today]. *)
Definition issued_today (today : string) (ps : list (Patient.t OPD))
    : list (Patient.t OPD) :=
  filter (λ p, Text.startswith today (Patient.token_number p)) ps.

(** The highest sequence number among the tokens with the date prefix
    [today]; 0 when there is none. *)
Definition highest_seq (today : string) (ps : list (Patient.t OPD)) : nat :=
  max_list_with (λ p, default 0%nat (token_seq (Patient.token_number p)))
    (issued_today today ps).

(** The Patient table as registrations build it: every row was appended
    with a fresh, larger id and the token of the next sequence number of
    its day, a day being written with eight characters (YYYYMMDD). *)
Inductive tokens_ok : list (Patient.t OPD) → Prop :=
| tokens_ok_nil : tokens_ok []
| tokens_ok_snoc ps p day :
    tokens_ok ps →
    String.length day = 8%nat →
    Patient.token_number p = token_of day (S (length (issued_today day ps))) →
    (∀ p', p' ∈ ps → Patient.id p' < Patient.id p) →
    tokens_ok (ps ++ [p]).

(** The positions held in one department, in the order of the table, which
    is the order of creation. *)
Definition positions_of `{EqDecision OPD} (opd : OPD)
    (qs : list (Queue.t OPD)) : list Z :=
  Queue.position <$> filter (λ q, Queue.opd_type q = opd) qs.

(** Within each department the positions present are strictly increasing in
    creation order (and so without repetition). *)
Definition positions_increasing `{EqDecision OPD} db : Prop :=
  ∀ opd, StronglySorted Z.lt (positions_of opd (queue db)).

End Statements.

(** * Properties *)

(** ** Query lemmas *)

Section QueryFacts.
Context {A : Type} (P : A → Prop) `{∀ x, Decision (P x)}.

Lemma first_filter_Some (l : list A) x :
  first (filter P l) = Some x → x ∈ l ∧ P x.
Proof.
  unfold first. intros Hx. apply head_Some_elem_of in Hx.
  apply list_elem_of_filter in Hx. tauto.
Qed.

Lemma first_filter_None (l : list A) :
  first (filter P l) = None → ∀ x, x ∈ l → ¬ P x.
Proof.
  unfold first. intros Hn x Hx HP. apply head_None in Hn.
  eapply filter_nil_not_elem_of; eauto.
Qed.

Lemma first_filter_found (l : list A) x :
  x ∈ l → P x → is_Some (first (filter P l)).
Proof.
  intros Hx HP. unfold first. apply head_is_Some. intros Hn.
  eapply filter_nil_not_elem_of; eauto.
Qed.

Lemma update_first_length f (l : list A) :
  length (update_first P f l) = length l.
Proof. induction l as [|x l IH]; simpl; [done|]. case_decide; simpl; congruence. Qed.

Lemma update_first_absent f (l : list A) :
  (∀ x, x ∈ l → ¬ P x) → update_first P f l = l.
Proof.
  induction l as [|x l IH]; simpl; intros Hl; [done|].
  case_decide.
  - exfalso. eapply Hl; [left|done].
  - f_equal. apply IH. intros y Hy. apply Hl. by right.
Qed.

Lemma update_first_fixed f (l : list A) :
  (∀ x, first (filter P l) = Some x → f x = x) → update_first P f l = l.
Proof.
  induction l as [|x l IH]; simpl; intros Hl; [done|].
  case_decide.
  - f_equal. apply Hl. by rewrite filter_cons_True.
  - f_equal. apply IH. intros y Hy. apply Hl. by rewrite filter_cons_False.
Qed.

Lemma update_first_fmap {B} (g : A → B) f (l : list A) :
  (∀ x, g (f x) = g x) → g <$> update_first P f l = g <$> l.
Proof.
  intros Hg. induction l as [|x l IH]; [done|].
  cbn [update_first]. case_decide; rewrite !fmap_cons; [by rewrite Hg|by rewrite IH].
Qed.

(** A row that satisfies [Q] survives an update of the first [P]-row, when
    the update keeps [Q]. *)
Lemma update_first_keeps (Q : A → Prop) f (l : list A) x :
  (∀ y, Q y → Q (f y)) → x ∈ l → Q x →
  ∃ y, y ∈ update_first P f l ∧ Q y.
Proof.
  intros Hf. induction l as [|z l IH]; intros Hx HQ.
  - by apply elem_of_nil in Hx.
  - simpl. apply elem_of_cons in Hx as [->|Hx].
    + case_decide.
      * exists (f z). split; [left|auto].
      * exists z. split; [left|auto].
    + case_decide.
      * exists x. split; [by right|done].
      * destruct (IH Hx HQ) as (y & Hy & HQy). exists y. split; [by right|done].
Qed.

(** The first [P]-row after the update is the updated first [P]-row. *)
Lemma update_first_first f (l : list A) :
  (∀ x, P x → P (f x)) →
  first (filter P (update_first P f l)) = f <$> first (filter P l).
Proof.
  intros Hf. induction l as [|x l IH]; simpl; [done|].
  case_decide.
  - rewrite !filter_cons_True by auto. done.
  - rewrite !filter_cons_False by auto. done.
Qed.

Lemma update_first_elem f (l : list A) y :
  y ∈ update_first P f l → y ∈ l ∨ ∃ x, x ∈ l ∧ P x ∧ y = f x.
Proof.
  induction l as [|x l IH]; simpl; [by intros ?%elem_of_nil|].
  case_decide.
  - intros [->|Hy]%elem_of_cons.
    + right. exists x. split; [left|done].
    + left. by right.
  - intros [->|Hy]%elem_of_cons; [left; left|].
    destruct (IH Hy) as [?|(z & ? & ? & ?)].
    + left. by right.
    + right. exists z. split; [by right|done].
Qed.

(** A selection [P'] and a projection [g] that the update does not affect
    read the same before and after. *)
Lemma update_first_filter_fmap {B} (g : A → B) (P' : A → Prop)
    `{∀ x, Decision (P' x)} f (l : list A) :
  (∀ x, g (f x) = g x) → (∀ x, P' (f x) ↔ P' x) →
  g <$> filter P' (update_first P f l) = g <$> filter P' l.
Proof.
  intros Hg HP'. induction l as [|x l IH]; [done|].
  cbn [update_first]. case_decide.
  - destruct (decide (P' x)) as [Hx|Hx].
    + rewrite !filter_cons_True by (done || by apply HP').
      rewrite !fmap_cons. by rewrite Hg.
    + rewrite !filter_cons_False by (done || by rewrite HP'). done.
  - destruct (decide (P' x)) as [Hx|Hx].
    + rewrite !filter_cons_True by done. rewrite !fmap_cons. by rewrite IH.
    + rewrite !filter_cons_False by done. done.
Qed.

(** An update of the first [P]-row does not touch the rows selected by a
    disjoint [P']. *)
Lemma update_first_filter_disjoint (P' : A → Prop)
    `{∀ x, Decision (P' x)} f (l : list A) :
  (∀ x, P x → ¬ P' x) → (∀ x, P x → ¬ P' (f x)) →
  filter P' (update_first P f l) = filter P' l.
Proof.
  intros Hd Hd'. induction l as [|x l IH]; [done|].
  cbn [update_first]. case_decide.
  - rewrite !filter_cons_False by auto. done.
  - destruct (decide (P' x)) as [Hx|Hx].
    + rewrite !filter_cons_True by done. by rewrite IH.
    + rewrite !filter_cons_False by done. done.
Qed.

End QueryFacts.

(** ** Row lemmas *)

Section RowFacts.
Context `{OPDEnum OPD}.
Implicit Types (db : DB OPD) (p : Patient.t OPD) (q : Queue.t OPD).

Lemma get_patient_Some patient_id db p :
  get_patient patient_id db = Some p →
  p ∈ patients db ∧ Patient.id p = patient_id.
Proof. apply (first_filter_Some (λ p, Patient.id p = patient_id)). Qed.

Lemma get_patient_None patient_id db :
  get_patient patient_id db = None →
  ∀ p, p ∈ patients db → Patient.id p ≠ patient_id.
Proof. apply (first_filter_None (λ p, Patient.id p = patient_id)). Qed.

Lemma save_patient_lookup patient (ps : list (Patient.t OPD)) i :
  save_patient patient ps !! i =
  (λ p, if decide (Patient.id p = Patient.id patient) then patient else p)
    <$> ps !! i.
Proof. apply list_lookup_fmap. Qed.

Lemma save_patient_length patient (ps : list (Patient.t OPD)) :
  length (save_patient patient ps) = length ps.
Proof. apply length_fmap. Qed.

Lemma save_patient_elem patient (ps : list (Patient.t OPD)) p' :
  p' ∈ save_patient patient ps →
  p' = patient ∨ (p' ∈ ps ∧ Patient.id p' ≠ Patient.id patient).
Proof.
  intros (p & -> & Hp)%list_elem_of_fmap. case_decide; auto.
Qed.

Lemma save_patient_other patient (ps : list (Patient.t OPD)) i p :
  ps !! i = Some p → Patient.id p ≠ Patient.id patient →
  save_patient patient ps !! i = Some p.
Proof.
  intros Hi Hne. rewrite save_patient_lookup, Hi. simpl.
  by rewrite decide_False.
Qed.

(** After the commit the patient's row reads back as it was written. *)
Lemma get_patient_saved patient patient_id db qs fl :
  Patient.id patient = patient_id →
  is_Some (get_patient patient_id db) →
  get_patient patient_id
    (mkDB (save_patient patient (patients db)) qs fl) = Some patient.
Proof.
  intros <-. unfold get_patient, first. simpl. generalize (patients db) as ps.
  induction ps as [|p ps IH]; intros [p0 Hp0]; [done|].
  unfold save_patient. rewrite fmap_cons.
  destruct (decide (Patient.id p = Patient.id patient)) as [Heq|Hne].
  - by rewrite filter_cons_True.
  - rewrite filter_cons_False by done. rewrite filter_cons_False in Hp0 by done.
    apply IH. eauto.
Qed.

End RowFacts.

(** ** C7: visit completion *)

Section EndVisit.
Context `{OPDEnum OPD}.
Implicit Types (db : DB OPD) (p : Patient.t OPD) (q : Queue.t OPD).

(** C7.  [end_patient_visit] on an existing patient succeeds; afterwards no
    queue entry of the patient is left in any department, the patient's row
    (every row with that id) has [allocated_opd], [current_room],
    [referred_from] and [referred_to] cleared, status COMPLETED and
    [completed_at] stamped with the time of the call, and the flow log is the
    old one followed by exactly one event, whose [to_room] is "completed". *)
Theorem end_patient_visit_reconciles patient_id now db p :
  get_patient patient_id db = Some p →
  ∃ db' p',
    end_patient_visit patient_id now db = Ok db' ∧
    (∀ q, q ∈ queue db' → Queue.patient_id q ≠ patient_id) ∧
    get_patient patient_id db' = Some p' ∧
    (∀ p'', p'' ∈ patients db' → Patient.id p'' = patient_id → p'' = p') ∧
    Patient.allocated_opd p' = None ∧
    Patient.current_room p' = None ∧
    Patient.referred_from p' = None ∧
    Patient.referred_to p' = None ∧
    Patient.current_status p' = COMPLETED ∧
    Patient.completed_at p' = Some now ∧
    ∃ flow_entry,
      patient_flow db' = patient_flow db ++ [flow_entry] ∧
      PatientFlow.patient_id flow_entry = patient_id ∧
      PatientFlow.from_room flow_entry = Patient.current_room p ∧
      PatientFlow.to_room flow_entry = Some "completed" ∧
      PatientFlow.status flow_entry = COMPLETED.
Proof.
  intros Hget. destruct (get_patient_Some _ _ _ Hget) as [Hin Hid].
  unfold end_patient_visit. rewrite Hget.
  eexists _, _. split; [reflexivity|]. cbn [queue patients patient_flow].
  split.
  { intros q Hq. apply list_elem_of_filter in Hq. tauto. }
  split.
  { apply get_patient_saved; [done|eauto]. }
  split.
  { intros p'' Hp'' Hid''. apply save_patient_elem in Hp'' as [->|[_ Hne]]; [done|].
    exfalso. apply Hne. simpl. congruence. }
  repeat (split; [reflexivity|]).
  eexists. repeat (split; [reflexivity|]). reflexivity.
Qed.

End EndVisit.

(** C7, a witness of the hypothesis: ending the visit of the patient who was
    referred from "eye" to "ent" and sits in both queues. *)
Lemma end_patient_visit_reconciles_witness :
  ∃ p, get_patient 1 referred_db = Some p ∧
  ∃ db' p',
    end_patient_visit 1 50 referred_db = Ok db' ∧
    (∀ q, q ∈ queue db' → Queue.patient_id q ≠ 1) ∧
    get_patient 1 db' = Some p' ∧
    Patient.current_status p' = COMPLETED ∧
    Patient.completed_at p' = Some 50.
Proof.
  eexists. split; [vm_compute; reflexivity|].
  destruct (end_patient_visit_reconciles 1 50 referred_db _ eq_refl)
    as (db' & p' & ? & ? & ? & _ & _ & _ & _ & _ & ? & ? & _).
  exists db', p'. auto.
Defined.

(** ** C6: the generic COMPLETED update *)

Section Completed.
Context `{OPDEnum OPD}.
Implicit Types (db : DB OPD) (p : Patient.t OPD) (q : Queue.t OPD).

(** C6.  [update_patient_status] with COMPLETED on an existing patient
    removes from the queue table exactly the rows of (that patient, the
    patient's allocated department): the table afterwards is the old one
    without them, so the patient's rows in other departments and all rows of
    other patients stay as they were and in place; the rows of other
    patients in the Patient table are unchanged as well. *)
Theorem update_status_completed_frame patient_id notes now now' db p :
  get_patient patient_id db = Some p →
  ∃ db',
    update_patient_status patient_id COMPLETED notes now now' db = Ok db' ∧
    queue db' =
      filter (λ q, ¬ entry_of_opt patient_id (Patient.allocated_opd p) q)
             (queue db) ∧
    (∀ q, q ∈ queue db → Queue.patient_id q = patient_id →
          Some (Queue.opd_type q) ≠ Patient.allocated_opd p → q ∈ queue db') ∧
    (∀ q, q ∈ queue db → Queue.patient_id q ≠ patient_id → q ∈ queue db') ∧
    (∀ q, q ∈ queue db' →
          q ∈ queue db ∧
          ¬ (Queue.patient_id q = patient_id ∧
             Some (Queue.opd_type q) = Patient.allocated_opd p)) ∧
    length (patients db') = length (patients db) ∧
    (∀ i p', patients db !! i = Some p' → Patient.id p' ≠ patient_id →
             patients db' !! i = Some p').
Proof.
  intros Hget. destruct (get_patient_Some _ _ _ Hget) as [Hin Hid].
  unfold update_patient_status. rewrite Hget.
  rewrite decide_False by discriminate. rewrite decide_True by reflexivity.
  cbn [Patient.allocated_opd set_completed_at set_current_status].
  set (sel := entry_of_opt patient_id (Patient.allocated_opd p)).
  assert (first (filter sel (filter (λ q, ¬ sel q) (queue db))) = None) as ->.
  { unfold first. apply head_None.
    destruct (filter sel (filter (λ q, ¬ sel q) (queue db))) as [|q l] eqn:E; [done|].
    assert (q ∈ filter sel (filter (λ q, ¬ sel q) (queue db))) as Hq
      by (rewrite E; left).
    apply list_elem_of_filter in Hq as [Hs Hq].
    apply list_elem_of_filter in Hq as [Hn _]. done. }
  eexists. split; [reflexivity|]. cbn [queue patients].
  split; [reflexivity|].
  split.
  { intros q Hq Hp Hne. apply list_elem_of_filter. split; [|done].
    unfold sel, entry_of_opt. tauto. }
  split.
  { intros q Hq Hne. apply list_elem_of_filter. split; [|done].
    unfold sel, entry_of_opt. tauto. }
  split.
  { intros q Hq. apply list_elem_of_filter in Hq as [Hn Hq]. split; [done|].
    exact Hn. }
  split; [apply save_patient_length|].
  intros i p' Hi Hne. apply save_patient_other; [done|]. simpl. congruence.
Qed.

End Completed.

(** C6, a witness of the hypothesis: the generic COMPLETED update of the
    patient who was referred from "eye" to "ent"; the entry in "ent" stays. *)
Lemma update_status_completed_frame_witness :
  ∃ p, get_patient 1 referred_db = Some p ∧
  ∃ db',
    update_patient_status 1 COMPLETED None 20 21 referred_db = Ok db' ∧
    queue db' =
      filter (λ q, ¬ entry_of_opt 1 (Patient.allocated_opd p) q)
             (queue referred_db) ∧
    queue db' = [Queue.mk ent 1 1 REFERRED None].
Proof.
  eexists. split; [vm_compute; reflexivity|].
  destruct (update_status_completed_frame 1 None 20 21 referred_db _ eq_refl)
    as (db' & Hdb' & Hq & _).
  exists db'. split; [exact Hdb'|]. split; [exact Hq|].
  rewrite Hq. vm_compute. reflexivity.
Defined.

(** ** What one request writes to the Patient table *)

Section Written.
Context `{OPDEnum OPD}.
Implicit Types (db : DB OPD) (p : Patient.t OPD) (q : Queue.t OPD).

Lemma written_id r p : Patient.id (written r p) = Patient.id p.
Proof. destruct r; simpl; repeat case_decide; reflexivity. Qed.

Lemma written_token_number r p :
  Patient.token_number (written r p) = Patient.token_number p.
Proof. destruct r; simpl; repeat case_decide; reflexivity. Qed.

Lemma handle_patients r db db' :
  handle r db = Ok db' →
  match target r with
  | None =>
      ∃ patient_data today now token_number,
        r = Register patient_data today now ∧
        generate_token_number today db = Ok token_number ∧
        patients db' =
          patients db ++
            [new_patient (next_id (patients db)) token_number patient_data now]
  | Some patient_id =>
      ∃ p, get_patient patient_id db = Some p ∧
           patients db' = save_patient (written r p) (patients db)
  end.
Proof.
  destruct r as [pd today now|pid opd|pid st notes now now'|pid to|pid now];
    cbn [handle target]; intros Hh.
  - unfold register_patient in Hh.
    destruct (generate_token_number today db) as [tok|e] eqn:Htok;
      [|discriminate].
    injection Hh as <-. eauto 10.
  - unfold allocate_opd in Hh.
    destruct (get_patient pid db) as [p|] eqn:Hp; [|discriminate].
    injection Hh as <-. eauto.
  - unfold update_patient_status in Hh.
    destruct (get_patient pid db) as [p|] eqn:Hp; [|discriminate].
    exists p. split; [done|]. cbn [written].
    repeat case_decide; injection Hh as <-; reflexivity.
  - unfold refer_patient in Hh.
    destruct (get_patient pid db) as [p|] eqn:Hp; [|discriminate].
    injection Hh as <-. eauto.
  - unfold end_patient_visit in Hh.
    destruct (get_patient pid db) as [p|] eqn:Hp; [|discriminate].
    injection Hh as <-. eauto.
Qed.

Lemma primary_key_unique db i j p p' :
  primary_key db → patients db !! i = Some p → patients db !! j = Some p' →
  Patient.id p = Patient.id p' → i = j ∧ p = p'.
Proof.
  intros Hpk Hi Hj Hid.
  assert (i = j) as ->.
  { eapply NoDup_lookup; [exact Hpk| |].
    - rewrite list_lookup_fmap, Hi. reflexivity.
    - rewrite list_lookup_fmap, Hj. simpl. by rewrite Hid. }
  split; [done|congruence].
Qed.

Lemma foldl_max_ge (l : list Z) (y x : Z) :
  x ∈ y :: l → x ≤ foldl Z.max y l.
Proof.
  revert y x. induction l as [|z l IH]; intros y x Hx; simpl.
  - apply list_elem_of_singleton in Hx. lia.
  - assert (Z.max y z ≤ foldl Z.max (Z.max y z) l) by (apply IH; left).
    apply elem_of_cons in Hx as [->|Hx]; [lia|].
    apply elem_of_cons in Hx as [->|Hx]; [lia|].
    apply IH. by right.
Qed.

Lemma func_max_ge (l : list Z) x : x ∈ l → ∃ m, func_max l = Some m ∧ x ≤ m.
Proof.
  destruct l as [|y l]; [by intros ?%elem_of_nil|].
  simpl. intros Hx. eexists. split; [done|]. by apply foldl_max_ge.
Qed.

Lemma or_0_Some (m : Z) : or_0 (Some m) = m.
Proof. simpl. case_decide; congruence. Qed.

Lemma next_id_fresh (ps : list (Patient.t OPD)) p :
  p ∈ ps → Patient.id p < next_id ps.
Proof.
  intros Hp. unfold next_id.
  destruct (func_max_ge (Patient.id <$> ps) (Patient.id p)) as (m & -> & Hm).
  { apply list_elem_of_fmap. eauto. }
  rewrite or_0_Some. lia.
Qed.

Lemma handle_primary_key r db db' :
  handle r db = Ok db' → primary_key db → primary_key db'.
Proof.
  intros Hh Hpk. apply handle_patients in Hh. unfold primary_key in *.
  destruct (target r) as [pid|].
  - destruct Hh as (p & Hp & ->).
    assert (Patient.id <$> save_patient (written r p) (patients db)
            = Patient.id <$> patients db) as ->; [|done].
    unfold save_patient. rewrite <- list_fmap_compose.
    apply list_fmap_ext. intros i x _. simpl.
    case_decide; [|done]. by rewrite written_id in *.
  - destruct Hh as (pd & today & now & tok & -> & _ & ->).
    rewrite fmap_app. apply NoDup_app. split; [done|]. split.
    + intros x Hx Hx'. apply list_elem_of_singleton in Hx'. simpl in Hx'.
      apply list_elem_of_fmap in Hx as (p & -> & Hp).
      apply next_id_fresh in Hp. lia.
    + apply NoDup_singleton.
Qed.

(** Row by row: a request leaves every row in place; it rewrites the row of
    its target and no other. *)
Lemma handle_row r db db' i p0 :
  primary_key db → handle r db = Ok db' → patients db !! i = Some p0 →
  patients db' !! i =
    Some (if decide (target r = Some (Patient.id p0)) then written r p0 else p0).
Proof.
  intros Hpk Hh Hi. apply handle_patients in Hh.
  destruct (target r) as [pid|] eqn:Ht.
  - destruct Hh as (p & Hp & ->).
    destruct (get_patient_Some _ _ _ Hp) as [Hin Hid].
    rewrite save_patient_lookup, Hi. simpl. rewrite written_id.
    apply list_elem_of_lookup in Hin as [j Hj].
    case_decide as Hd.
    + destruct (primary_key_unique db i j p0 p Hpk Hi Hj Hd) as [_ ->].
      rewrite decide_True by congruence. done.
    + rewrite decide_False; [done|]. intros [= ->]. congruence.
  - destruct Hh as (pd & today & now & tok & -> & _ & ->).
    rewrite decide_False by discriminate.
    rewrite lookup_app_l; [done|]. by eapply lookup_lt_Some.
Qed.

End Written.

(** ** C1: completion and the completed_at stamp *)

Section Completion.
Context `{OPDEnum OPD}.
Implicit Types (db : DB OPD) (p : Patient.t OPD) (q : Queue.t OPD).

(** C1, as the handlers have it.  A patient whose status is COMPLETED has
    [completed_at] set: this holds of the empty database and every request
    (register, allocate, status update, refer, end visit) that succeeds keeps
    it.  A successful end of visit moreover leaves the patient with
    [completed_at] set, status COMPLETED and the four fields cleared, so that
    the three-way equivalence holds for that row. *)
Theorem completed_is_stamped_preserved r db db' :
  completed_is_stamped db → handle r db = Ok db' →
  completed_is_stamped db' ∧
  completed_is_stamped (@empty_db OPD) ∧
  ∀ patient_id now, r = EndVisit patient_id now →
    ∃ p', get_patient patient_id db' = Some p' ∧
          Patient.completed_at p' = Some now ∧
          Patient.current_status p' = COMPLETED ∧
          all_cleared p' ∧ completion_equiv p'.
Proof.
  intros Hinv Hh. split; [|split].
  - apply handle_patients in Hh. intros p' Hp' Hst.
    destruct (target r) as [pid|] eqn:Ht.
    + destruct Hh as (p & Hp & Hps). rewrite Hps in Hp'.
      destruct (get_patient_Some _ _ _ Hp) as [Hin _].
      apply save_patient_elem in Hp' as [->|[Hp' _]]; [|by apply Hinv].
      specialize (Hinv p Hin).
      destruct r; simpl in *; repeat case_decide; simpl in *;
        subst; eauto; try discriminate; try congruence.
    + destruct Hh as (pd & today & now & tok & -> & _ & Hps).
      rewrite Hps in Hp'. apply elem_of_app in Hp' as [Hp'|Hp'].
      * by apply Hinv.
      * apply list_elem_of_singleton in Hp'. subst p'. discriminate.
  - intros p Hp. by apply elem_of_nil in Hp.
  - intros pid now ->. simpl in Hh. unfold end_patient_visit in Hh.
    destruct (get_patient pid db) as [p|] eqn:Hp; [|discriminate].
    injection Hh as <-. destruct (get_patient_Some _ _ _ Hp) as [_ Hid].
    eexists. split; [apply get_patient_saved; [exact Hid|eauto]|].
    unfold completion_equiv, all_cleared. simpl. naive_solver.
Qed.

End Completion.

(** C1, a witness of the hypotheses: ending the visit of the allocated
    patient. *)
Lemma completed_is_stamped_preserved_witness :
  completed_is_stamped allocated_db ∧
  ∃ db', handle (EndVisit 1 30) allocated_db = Ok db' ∧
         completed_is_stamped db'.
Proof.
  assert (completed_is_stamped allocated_db) as Hinv.
  { intros p Hp Hst. vm_compute in Hp. inversion Hp as [|? ? ? Hp']; subst.
    - discriminate.
    - inversion Hp'. }
  split; [exact Hinv|]. eexists. split; [reflexivity|].
  eapply (completed_is_stamped_preserved (EndVisit 1 30) allocated_db);
    [exact Hinv|reflexivity].
Defined.

(** C1, as stated, fails: in [allocated_db] the three conditions are
    equivalent for every patient (none holds), and the generic COMPLETED
    update leaves patient 1 completed and stamped, yet still allocated.
    (A registration breaks the equivalence too: the new patient has the four
    fields empty and is not completed.) *)
Lemma completion_equiv_broken_by_update :
  (∀ p, p ∈ patients allocated_db → completion_equiv p) ∧
  (∃ p, p ∈ patients registered_db ∧ all_cleared p ∧
        Patient.current_status p = PENDING ∧ ¬ completion_equiv p) ∧
  ∃ db' p',
    handle (UpdateStatus 1 COMPLETED None 20 21) allocated_db = Ok db' ∧
    p' ∈ patients db' ∧
    Patient.current_status p' = COMPLETED ∧
    Patient.completed_at p' = Some 20 ∧
    Patient.allocated_opd p' = Some eye ∧
    ¬ completion_equiv p'.
Proof.
  split; [|split].
  - intros p Hp. vm_compute in Hp. inversion Hp as [|? ? ? Hp']; subst.
    + unfold completion_equiv, all_cleared. simpl.
      split; split; try (intros [? ?]; discriminate); discriminate.
    + inversion Hp'.
  - eexists. split; [left|]. split; [by repeat split|]. split; [done|].
    intros [_ [_ Hc]]. by specialize (Hc ltac:(by repeat split)).
  - eexists _, _. split; [vm_compute; reflexivity|].
    split; [left|]. repeat (split; [reflexivity|]).
    intros [_ [Hc _]]. destruct (Hc eq_refl) as [[=] _].
Qed.

(** ** C5: the dilation flag and its time stamp *)

Section Dilation.
Context `{OPDEnum OPD}.
Implicit Types (db : DB OPD) (p : Patient.t OPD) (q : Queue.t OPD).






End Dilation.



(** ** C2 and C8: referral *)

Section Referral.
Context `{OPDEnum OPD}.
Implicit Types (db : DB OPD) (p : Patient.t OPD) (q : Queue.t OPD).

Lemma entry_of_set_status patient_id opd st q :
  entry_of patient_id opd (set_status st q) ↔ entry_of patient_id opd q.
Proof. reflexivity. Qed.

(** The shape of a referral's result. *)
Lemma refer_patient_Ok patient_id to_opd db p :
  get_patient patient_id db = Some p →
  ∃ db',
    refer_patient patient_id to_opd db = Ok db' ∧
    patients db' =
      save_patient (written (Refer patient_id to_opd) p) (patients db) ∧
    queue db' =
      (let qs := origin_marked patient_id (Patient.allocated_opd p) (queue db) in
       match first (filter (entry_of patient_id to_opd) qs) with
       | None =>
           qs ++ [Queue.mk to_opd patient_id
                    (max_position to_opd qs + 1) REFERRED None]
       | Some _ =>
           update_first (entry_of patient_id to_opd) (set_status REFERRED) qs
       end).
Proof.
  intros Hp. unfold refer_patient. rewrite Hp.
  eexists. split; [reflexivity|]. cbn [patients queue]. split; [reflexivity|].
  assert (match Patient.allocated_opd p with
          | Some from =>
              match first (filter (entry_of patient_id from) (queue db)) with
              | Some _ =>
                  update_first (entry_of patient_id from) (set_status REFERRED)
                    (queue db)
              | None => queue db
              end
          | None => queue db
          end = origin_marked patient_id (Patient.allocated_opd p) (queue db))
    as ->; [|reflexivity].
  unfold origin_marked. destruct (Patient.allocated_opd p) as [from|]; [|done].
  destruct (first (filter (entry_of patient_id from) (queue db))) eqn:Hf; [done|].
  symmetry. apply update_first_absent.
  by apply (first_filter_None (entry_of patient_id from)).
Qed.

Lemma origin_marked_slots patient_id from_opd (qs : list (Queue.t OPD)) :
  slot <$> origin_marked patient_id from_opd qs = slot <$> qs.
Proof.
  destruct from_opd as [from|]; [|done]. simpl.
  by apply update_first_fmap.
Qed.

Lemma origin_marked_max_position patient_id from_opd opd
    (qs : list (Queue.t OPD)) :
  max_position opd (origin_marked patient_id from_opd qs) = max_position opd qs.
Proof.
  destruct from_opd as [from|]; [|done]. unfold max_position. simpl.
  by rewrite (update_first_filter_fmap (entry_of patient_id from)
                Queue.position (λ q, Queue.opd_type q = opd)).
Qed.

Lemma origin_marked_elem patient_id from_opd (qs : list (Queue.t OPD)) q :
  q ∈ origin_marked patient_id from_opd qs →
  ∃ q0, q0 ∈ qs ∧ slot q = slot q0.
Proof.
  destruct from_opd as [from|]; simpl; [|by eauto].
  intros [?|(q0 & ? & ? & ->)]%update_first_elem; eauto.
Qed.

(** The first entry of (patient, [to_opd]) after the origin was marked is the
    one from before, with status REFERRED if it is the origin's entry. *)
Lemma origin_marked_first patient_id from_opd to_opd
    (qs : list (Queue.t OPD)) :
  set_status REFERRED <$>
    first (filter (entry_of patient_id to_opd)
             (origin_marked patient_id from_opd qs)) =
  set_status REFERRED <$> first (filter (entry_of patient_id to_opd) qs).
Proof.
  destruct from_opd as [from|]; [|done]. simpl.
  destruct (decide (from = to_opd)) as [->|Hne].
  - rewrite update_first_first by done.
    by destruct (first (filter (entry_of patient_id to_opd) qs)).
  - rewrite update_first_filter_disjoint; [done| |];
      unfold entry_of; simpl; intros q [_ ?] [_ ?]; congruence.
Qed.

Lemma set_status_fixed st q : Queue.status q = st → set_status st q = q.
Proof. destruct q. simpl. by intros ->. Qed.

(** The queue table that a referral leaves is a fixed point of the two
    queue steps of a referral of the same patient from the same origin to
    the same destination. *)
Lemma refer_queue_fixed patient_id from_opd to_opd (qs0 : list (Queue.t OPD)) :
  let qs := origin_marked patient_id from_opd qs0 in
  let qs1 :=
    match first (filter (entry_of patient_id to_opd) qs) with
    | None =>
        qs ++ [Queue.mk to_opd patient_id
                 (max_position to_opd qs + 1) REFERRED None]
    | Some _ =>
        update_first (entry_of patient_id to_opd) (set_status REFERRED) qs
    end in
  origin_marked patient_id from_opd qs1 = qs1 ∧
  ∃ q1, first (filter (entry_of patient_id to_opd) qs1) = Some q1 ∧
        Queue.status q1 = REFERRED.
Proof.
  intros qs qs1.
  assert (∃ q1, first (filter (entry_of patient_id to_opd) qs1) = Some q1 ∧
                Queue.status q1 = REFERRED) as Hto.
  { unfold qs1.
    destruct (first (filter (entry_of patient_id to_opd) qs)) as [q|] eqn:Hq.
    - rewrite update_first_first by done. rewrite Hq. simpl. eauto.
    - unfold first in *. apply head_None in Hq. rewrite filter_app, Hq. simpl.
      rewrite filter_cons_True by done. simpl. eauto. }
  split; [|exact Hto].
  destruct from_opd as [from|]; [|done]. cbn [origin_marked].
  apply update_first_fixed. intros q Hq. apply set_status_fixed.
  destruct (decide (from = to_opd)) as [->|Hne].
  - destruct Hto as (q1 & Hq1 & Hst). congruence.
  - assert (filter (entry_of patient_id from) qs1
            = filter (entry_of patient_id from) qs) as Hsame.
    { unfold qs1.
      destruct (first (filter (entry_of patient_id to_opd) qs)) as [q'|].
      - apply update_first_filter_disjoint;
          unfold entry_of; simpl; intros ? [_ ?] [_ ?]; congruence.
      - rewrite filter_app, filter_cons_False, filter_nil, app_nil_r; [done|].
        unfold entry_of. simpl. intros [_ ?]. congruence. }
    rewrite Hsame in Hq. unfold qs in Hq. cbn [origin_marked] in Hq.
    rewrite update_first_first in Hq by done.
    destruct (first (filter (entry_of patient_id from) qs0)); [|done].
    by injection Hq as <-.
Qed.

(** The destination's side of a referral, in terms of the model's setter
    and query; the theorem on the destination queue reads the fields off
    it. *)
Lemma refer_destination_shape patient_id to_opd db p :
  get_patient patient_id db = Some p →
  ∃ db',
    refer_patient patient_id to_opd db = Ok db' ∧
    (∃ db'', refer_patient patient_id to_opd db' = Ok db'' ∧
             queue db'' = queue db') ∧
    (∀ q0, first (filter (entry_of patient_id to_opd) (queue db)) = Some q0 →
       slot <$> queue db' = slot <$> queue db ∧
       length (queue db') = length (queue db) ∧
       first (filter (entry_of patient_id to_opd) (queue db')) =
         Some (set_status REFERRED q0) ∧
       Queue.position (set_status REFERRED q0) = Queue.position q0 ∧
       Queue.updated_at (set_status REFERRED q0) = Queue.updated_at q0) ∧
    ((∀ q, q ∈ queue db → ¬ entry_of patient_id to_opd q) →
       ∃ qs,
         queue db' =
           qs ++ [Queue.mk to_opd patient_id
                    (max_position to_opd (queue db) + 1) REFERRED None] ∧
         slot <$> qs = slot <$> queue db ∧
         length (queue db') = S (length (queue db)) ∧
         filter (entry_of patient_id to_opd) (queue db') =
           [Queue.mk to_opd patient_id
              (max_position to_opd (queue db) + 1) REFERRED None]).
Proof.
  intros Hp. destruct (refer_patient_Ok patient_id to_opd db p Hp)
    as (db' & Hdb' & Hps & Hq).
  exists db'. split; [done|]. cbv zeta in Hq.
  split.
  { destruct (get_patient_Some _ _ _ Hp) as [_ Hid].
    assert (get_patient patient_id db'
            = Some (written (Refer patient_id to_opd) p)) as Hp'.
    { destruct db' as [ps' qs' fl']. simpl in Hps. rewrite Hps.
      apply get_patient_saved; [done|eauto]. }
    destruct (refer_patient_Ok patient_id to_opd db' _ Hp')
      as (db'' & Hdb'' & _ & Hq'').
    exists db''. split; [done|]. cbv zeta in Hq''. cbn [written] in Hq''.
    cbn [Patient.allocated_opd set_current_status set_referred_to
         set_referred_from] in Hq''.
    destruct (refer_queue_fixed patient_id (Patient.allocated_opd p) to_opd
                (queue db)) as (Hfix & q1 & Hq1 & Hst).
    rewrite <- Hq in Hfix, Hq1. rewrite Hfix, Hq1 in Hq''. rewrite Hq''.
    apply update_first_fixed. intros q Hq0. apply set_status_fixed. congruence. }
  set (qs := origin_marked patient_id (Patient.allocated_opd p) (queue db)) in *.
  pose proof (origin_marked_first patient_id (Patient.allocated_opd p) to_opd
                (queue db)) as Hfirst. fold qs in Hfirst.
  split.
  - intros q0 Hq0. rewrite Hq0 in Hfirst.
    destruct (first (filter (entry_of patient_id to_opd) qs)) as [q1|] eqn:Hq1;
      [|done].
    rewrite Hq. split; [|split; [|split]].
    + rewrite update_first_fmap by done. apply origin_marked_slots.
    + rewrite update_first_length. unfold qs.
      rewrite <- (length_fmap slot), origin_marked_slots. apply length_fmap.
    + rewrite update_first_first by done. rewrite Hq1. done.
    + done.
  - intros Hnone.
    assert (∀ q, q ∈ qs → ¬ entry_of patient_id to_opd q) as Hnone'.
    { intros q (q0 & Hq0 & Hs)%origin_marked_elem He. apply (Hnone q0 Hq0).
      unfold entry_of, slot in *. destruct He. split; congruence. }
    assert (filter (entry_of patient_id to_opd) qs = []) as Hnil.
    { destruct (filter (entry_of patient_id to_opd) qs) as [|q l] eqn:E; [done|].
      exfalso. assert (q ∈ filter (entry_of patient_id to_opd) qs) as Hin
        by (rewrite E; left).
      apply list_elem_of_filter in Hin as [? ?]. by eapply Hnone'. }
    unfold first in Hq. rewrite Hnil in Hq. simpl in Hq.
    unfold qs in Hq at 2. rewrite origin_marked_max_position in Hq.
    exists qs. split; [done|]. split; [apply origin_marked_slots|]. split.
    + rewrite Hq, length_app. simpl. unfold qs.
      rewrite <- (length_fmap slot (origin_marked _ _ _)), origin_marked_slots.
      rewrite length_fmap. lia.
    + rewrite Hq, filter_app, Hnil. simpl.
      by rewrite filter_cons_True, filter_nil by done.
Qed.

(** C2, as the handler has it.  After a referral of an existing patient
    whose allocated department was [from], the patient's [referred_from] is
    (the value of) [from], [referred_to] (the value of) the destination and
    the status REFERRED; the patient has an entry with status REFERRED in the
    destination department, and also in [from] whenever the patient had an
    entry in [from] before the call (the handler marks the origin's entry,
    it does not create one). *)
Theorem refer_patient_dual_membership patient_id to_opd db p from :
  get_patient patient_id db = Some p →
  Patient.allocated_opd p = Some from →
  ∃ db' p',
    refer_patient patient_id to_opd db = Ok db' ∧
    get_patient patient_id db' = Some p' ∧
    Patient.referred_from p' = Some (value from) ∧
    Patient.referred_to p' = Some (value to_opd) ∧
    Patient.current_status p' = REFERRED ∧
    (∃ q, q ∈ queue db' ∧ entry_of patient_id to_opd q ∧
          Queue.status q = REFERRED) ∧
    ((∃ q, q ∈ queue db ∧ entry_of patient_id from q) →
     ∃ q, q ∈ queue db' ∧ entry_of patient_id from q ∧
          Queue.status q = REFERRED).
Proof.
  intros Hp Hfrom. destruct (refer_patient_Ok patient_id to_opd db p Hp)
    as (db' & Hdb' & Hps & Hq).
  destruct (get_patient_Some _ _ _ Hp) as [_ Hid].
  exists db', (written (Refer patient_id to_opd) p). split; [done|].
  split.
  { destruct db' as [ps' qs' fl']. simpl in Hps. rewrite Hps.
    apply get_patient_saved; [done|eauto]. }
  split; [by simpl; rewrite Hfrom|]. split; [done|]. split; [done|].
  cbv zeta in Hq. rewrite Hfrom in Hq.
  set (qs := origin_marked patient_id (Some from) (queue db)) in *.
  split.
  - destruct (first (filter (entry_of patient_id to_opd) qs)) as [q0|] eqn:Hq0.
    + assert (first (filter (entry_of patient_id to_opd) (queue db'))
              = Some (set_status REFERRED q0)) as Hf.
      { rewrite Hq, update_first_first by done. by rewrite Hq0. }
      apply first_filter_Some in Hf as [? ?]. eauto.
    + eexists. split; [rewrite Hq; apply elem_of_app; right; left|]. done.
  - intros (q & Hin & Hq0).
    assert (∃ q1, q1 ∈ qs ∧ entry_of patient_id from q1 ∧
                  Queue.status q1 = REFERRED) as (q1 & Hin1 & He1 & Hs1).
    { destruct (first_filter_found (entry_of patient_id from) (queue db) q Hin Hq0)
        as [q' Hq'].
      assert (first (filter (entry_of patient_id from) qs)
              = Some (set_status REFERRED q')) as Hf.
      { unfold qs. cbn [origin_marked]. rewrite update_first_first by done.
        by rewrite Hq'. }
      apply first_filter_Some in Hf as [? ?]. eauto. }
    rewrite Hq.
    destruct (first (filter (entry_of patient_id to_opd) qs)) as [q0|].
    + destruct (update_first_keeps (entry_of patient_id to_opd)
                  (λ q, entry_of patient_id from q ∧ Queue.status q = REFERRED)
                  (set_status REFERRED) qs q1) as (y & ? & ? & ?); eauto.
      intros y [? ?]. done.
    + exists q1. split; [apply elem_of_app; by left|done].
Qed.

End Referral.

(** C2, a witness of the hypotheses: the same referral. *)
Lemma refer_patient_dual_membership_witness :
  ∃ p, get_patient 1 allocated_db = Some p ∧
       Patient.allocated_opd p = Some eye ∧
  ∃ db' p',
    refer_patient 1 ent allocated_db = Ok db' ∧
    get_patient 1 db' = Some p' ∧
    Patient.referred_from p' = Some "eye" ∧
    Patient.referred_to p' = Some "ent".
Proof.
  eexists. split; [vm_compute; reflexivity|]. split; [reflexivity|].
  destruct (refer_patient_dual_membership 1 ent allocated_db _ eye
              eq_refl eq_refl)
    as (db' & p' & ? & ? & ? & ? & _).
  exists db', p'. auto.
Defined.

(** C2, as stated, fails: patient 1 of [completed_db] is still allocated to
    "eye" but the generic COMPLETED update has removed the entry there; the
    referral to "ent" then leaves no entry of the patient in "eye". *)
Lemma refer_without_origin_entry :
  ∃ p db',
    get_patient 1 completed_db = Some p ∧
    Patient.allocated_opd p = Some eye ∧
    refer_patient 1 ent completed_db = Ok db' ∧
    ¬ ∃ q, q ∈ queue db' ∧ entry_of 1 eye q.
Proof.
  eexists _, _. split; [vm_compute; reflexivity|]. split; [reflexivity|].
  split; [vm_compute; reflexivity|].
  intros (q & Hq & [_ He]). simpl in Hq.
  apply list_elem_of_singleton in Hq. subst q. discriminate.
Qed.

(** ** C9 and C10: the listing queries *)

Section Ordering.
Context {A : Type} (key : A → Z).

#[global] Instance asc_trans : Transitive (asc key).
Proof. unfold asc. intros x y z ??. lia. Qed.

#[global] Instance asc_total : Total (asc key).
Proof. unfold asc. intros x y. lia. Qed.

#[global] Instance desc_trans : Transitive (desc key).
Proof. unfold desc. intros x y z ??. lia. Qed.

#[global] Instance desc_total : Total (desc key).
Proof. unfold desc. intros x y. lia. Qed.


Lemma order_by_asc_perm (l : list A) : order_by_asc key l ≡ₚ l.
Proof. apply merge_sort_Permutation. Qed.

Lemma order_by_desc_sorted (l : list A) :
  StronglySorted (desc key) (order_by_desc key l).
Proof. apply StronglySorted_merge_sort; apply _. Qed.

Lemma order_by_desc_perm (l : list A) : order_by_desc key l ≡ₚ l.
Proof. apply merge_sort_Permutation. Qed.

End Ordering.

Section Listing.
Context `{OPDEnum OPD}.
Implicit Types (db : DB OPD) (p : Patient.t OPD) (q : Queue.t OPD).

(** C9.  With latest mode on, [get_patients] returns the first five rows (or
    all, if there are fewer) of the patients that match the status filter,
    ordered by registration time descending: at most five rows, sorted
    newest first, each matching the filter, none of the matching rows left
    out being newer than a returned one, and the same rows whatever [skip]
    and [limit] are.  With latest mode off (absent or false) it returns the
    matching patients ordered by registration time descending, [skip] rows
    dropped and at most [limit] rows kept. *)
Theorem get_patients_latest_and_paged skip limit_ status db :
  let matching :=
    match status with
    | Some s => filter (λ p, Patient.current_status p = s) (patients db)
    | None => patients db
    end in
  let sorted := order_by_desc Patient.registration_time matching in
  let latest5 := get_patients skip limit_ status (Some true) db in
  sorted ≡ₚ matching ∧
  StronglySorted (desc Patient.registration_time) sorted ∧
  latest5 = take 5 sorted ∧
  length latest5 = (5 `min` length matching)%nat ∧
  (length latest5 ≤ 5)%nat ∧
  StronglySorted (desc Patient.registration_time) latest5 ∧
  (∀ skip' limit', get_patients skip' limit' status (Some true) db = latest5) ∧
  (∀ p, p ∈ latest5 → p ∈ matching) ∧
  (∀ p s, p ∈ latest5 → status = Some s → Patient.current_status p = s) ∧
  latest5 ++ drop 5 sorted ≡ₚ matching ∧
  (∀ p p', p ∈ latest5 → p' ∈ drop 5 sorted →
           Patient.registration_time p' ≤ Patient.registration_time p) ∧
  get_patients skip limit_ status None db = limit limit_ (offset skip sorted) ∧
  get_patients skip limit_ status (Some false) db =
    limit limit_ (offset skip sorted) ∧
  (0 ≤ skip → 0 ≤ limit_ →
   limit limit_ (offset skip sorted) =
     take (Z.to_nat limit_) (drop (Z.to_nat skip) sorted)).
Proof.
  intros matching sorted latest5.
  assert (latest5 = take 5 sorted) as Hl by reflexivity.
  pose proof (order_by_desc_perm Patient.registration_time matching) as Hperm.
  pose proof (order_by_desc_sorted Patient.registration_time matching) as Hsort.
  fold sorted in Hperm, Hsort.
  assert (StronglySorted (desc Patient.registration_time)
            (take 5 sorted ++ drop 5 sorted)) as Hsplit
    by by rewrite take_drop.
  assert (∀ p, p ∈ latest5 → p ∈ matching) as Hin.
  { intros p Hp. rewrite <- Hperm, <- (take_drop 5 sorted).
    apply elem_of_app. left. by rewrite <- Hl. }
  split; [done|]. split; [done|]. split; [done|].
  split. { rewrite Hl, length_take. by rewrite Hperm. }
  split. { rewrite Hl, length_take. lia. }
  split. { rewrite Hl. by eapply StronglySorted_app_1_l. }
  split; [done|]. split; [done|].
  split.
  { intros p s Hp ->. apply Hin in Hp. unfold matching in Hp.
    apply list_elem_of_filter in Hp. tauto. }
  split. { by rewrite Hl, take_drop. }
  split.
  { intros p p' Hp Hp'. rewrite Hl in Hp.
    apply (StronglySorted_app_1_elem_of _ _ _ p p' Hsplit Hp Hp'). }
  split; [done|]. split; [done|].
  intros Hs Hlim. unfold limit. by rewrite decide_False by lia.
Qed.


End Listing.

(** Scenario E: of ten registered patients the latest mode returns the five
    registered last, newest first, whatever skip and limit are. *)
Example get_patients_latest_of_ten :
  Patient.id <$> get_patients 3 2 None (Some true) ten_db = [10; 9; 8; 7; 6].
Proof. vm_compute. reflexivity. Qed.

Example get_patients_paged_of_ten :
  Patient.id <$> get_patients 3 2 None None ten_db = [7; 6].
Proof. vm_compute. reflexivity. Qed.


(** ** C4: queue positions *)

Section SublistFacts.
Context {A : Type}.

Lemma sublist_filter_mono (P : A → Prop) `{∀ x, Decision (P x)}
    (l1 l2 : list A) :
  l1 `sublist_of` l2 → filter P l1 `sublist_of` filter P l2.
Proof.
  induction 1 as [|x l1 l2 _ IH|x l1 l2 _ IH]; [done| |].
  - rewrite !filter_cons. case_decide; [by constructor|done].
  - rewrite filter_cons. case_decide; [by constructor|done].
Qed.

Lemma StronglySorted_sublist (R : relation A) (l1 l2 : list A) :
  l1 `sublist_of` l2 → StronglySorted R l2 → StronglySorted R l1.
Proof.
  induction 1 as [|x l1 l2 Hs IH|x l1 l2 Hs IH]; [done| |].
  - intros [Hx Hl2]%StronglySorted_cons. apply StronglySorted_cons.
    split; [|auto]. rewrite Forall_forall in *. intros y Hy.
    apply Hx. by eapply elem_of_sublist.
  - intros [_ Hl2]%StronglySorted_cons. auto.
Qed.

End SublistFacts.

Section Positions.
Context `{OPDEnum OPD}.
Implicit Types (db : DB OPD) (p : Patient.t OPD) (q : Queue.t OPD).

Lemma positions_of_slots opd (qs : list (Queue.t OPD)) :
  positions_of opd qs = snd <$> filter (λ s, s.1.1 = opd) (slot <$> qs).
Proof.
  unfold positions_of. induction qs as [|q qs IH]; [done|].
  rewrite fmap_cons, !filter_cons. simpl.
  case_decide; rewrite ?fmap_cons; by rewrite IH.
Qed.

Lemma positions_of_sublist opd (qs1 qs2 : list (Queue.t OPD)) :
  slot <$> qs1 `sublist_of` slot <$> qs2 →
  positions_of opd qs1 `sublist_of` positions_of opd qs2.
Proof.
  intros Hs. rewrite !positions_of_slots.
  apply fmap_sublist. by apply sublist_filter_mono.
Qed.

Lemma max_position_positions opd (qs : list (Queue.t OPD)) :
  max_position opd qs = or_0 (func_max (positions_of opd qs)).
Proof. reflexivity. Qed.

(** The next position is above every position present in the department. *)
Lemma max_position_above opd (qs : list (Queue.t OPD)) x :
  x ∈ positions_of opd qs → x < max_position opd qs + 1.
Proof.
  intros Hx. rewrite max_position_positions.
  destruct (func_max_ge _ _ Hx) as (m & -> & Hm). rewrite or_0_Some. lia.
Qed.

Lemma max_position_empty opd (qs : list (Queue.t OPD)) :
  (∀ q, q ∈ qs → Queue.opd_type q ≠ opd) → max_position opd qs = 0.
Proof.
  intros Hnone. rewrite max_position_positions. unfold positions_of.
  destruct (filter (λ q, Queue.opd_type q = opd) qs) as [|q l] eqn:E; [done|].
  exfalso. assert (q ∈ filter (λ q, Queue.opd_type q = opd) qs) as Hq
    by (rewrite E; left).
  apply list_elem_of_filter in Hq as [? ?]. by eapply Hnone.
Qed.

(** What one request does to the queue table: rows are kept in their order,
    some may be deleted, none changes department, patient or position, and
    at most one row is added, at the end, with the next position of its
    department. *)
Lemma handle_queue (r : request OPD) db db' :
  handle r db = Ok db' →
  ∃ kept new,
    queue db' = kept ++ new ∧
    slot <$> kept `sublist_of` slot <$> queue db ∧
    (new = [] ∨
     ∃ opd patient_id st,
       new = [Queue.mk opd patient_id (max_position opd (queue db) + 1) st None]).
Proof.
  destruct r as [pd today now|pid opd|pid st notes now now'|pid to|pid now];
    cbn [handle]; intros Hh.
  - unfold register_patient in Hh.
    destruct (generate_token_number today db); [|discriminate].
    injection Hh as <-. exists (queue db), []. simpl.
    rewrite app_nil_r. auto.
  - unfold allocate_opd in Hh.
    destruct (get_patient pid db); [|discriminate]. injection Hh as <-.
    eexists (queue db), _. simpl. split; [done|]. split; [done|]. eauto.
  - unfold update_patient_status in Hh.
    destruct (get_patient pid db) as [p|]; [|discriminate].
    exists (queue db'), []. rewrite app_nil_r. split; [done|]. split; [|auto].
    repeat case_decide; injection Hh as <-; simpl;
      match goal with
      | |- context [first ?l] => destruct (first l)
      end;
      rewrite ?update_first_fmap by done;
      try done; apply fmap_sublist, sublist_filter.
  - destruct (get_patient pid db) as [p|] eqn:Hp.
    2:{ unfold refer_patient in Hh. rewrite Hp in Hh. discriminate. }
    destruct (refer_patient_Ok pid to db p Hp) as (db1 & Hdb1 & _ & Hq).
    assert (db1 = db') as -> by congruence. cbv zeta in Hq.
    destruct (first (filter (entry_of pid to)
                       (origin_marked pid (Patient.allocated_opd p) (queue db)))).
    + exists (queue db'), []. rewrite app_nil_r. split; [done|].
      split; [|auto]. rewrite Hq, update_first_fmap by done.
      by rewrite origin_marked_slots.
    + rewrite origin_marked_max_position in Hq.
      eexists _, _. split; [exact Hq|].
      split; [by rewrite origin_marked_slots|]. eauto.
  - unfold end_patient_visit in Hh.
    destruct (get_patient pid db); [|discriminate]. injection Hh as <-.
    eexists _, []. simpl. rewrite app_nil_r. split; [done|].
    split; [|auto]. apply fmap_sublist, sublist_filter.
Qed.

(** C4, as the handlers have it.  In every department the positions of the
    entries present are strictly increasing in creation order, hence
    unique: this holds of the empty database and every request keeps it.
    A request keeps the entries it does not delete in their order, each with
    its department, patient and position (no position is reassigned, nothing
    is compacted), and adds at most one entry, at the end, whose position is
    the maximum of the positions present in its department plus one (one if
    there are none) and lies above each of them.  An allocation always adds
    such an entry; a referral adds one when the patient has no entry in the
    destination.  Since the maximum is taken over the entries present, this
    is also the rule after a deletion. *)
Theorem queue_positions_increasing (r : request OPD) db db' :
  positions_increasing db → handle r db = Ok db' →
  positions_increasing db' ∧
  positions_increasing (@empty_db OPD) ∧
  (∃ kept new,
     queue db' = kept ++ new ∧
     slot <$> kept `sublist_of` slot <$> queue db ∧
     (new = [] ∨
      ∃ opd patient_id st,
        new = [Queue.mk opd patient_id
                 (max_position opd (queue db) + 1) st None] ∧
        (∀ q, q ∈ queue db → Queue.opd_type q = opd →
              Queue.position q < max_position opd (queue db) + 1) ∧
        ((∀ q, q ∈ queue db → Queue.opd_type q ≠ opd) →
         max_position opd (queue db) + 1 = 1))) ∧
  (∀ patient_id opd_type, r = AllocateOPD patient_id opd_type →
     queue db' =
       queue db ++ [Queue.mk opd_type patient_id
                      (max_position opd_type (queue db) + 1) PENDING None]) ∧
  (∀ patient_id to_opd, r = Refer patient_id to_opd →
     (∀ q, q ∈ queue db → ¬ entry_of patient_id to_opd q) →
     ∃ qs, slot <$> qs = slot <$> queue db ∧
           queue db' =
             qs ++ [Queue.mk to_opd patient_id
                      (max_position to_opd (queue db) + 1) REFERRED None]).
Proof.
  intros Hinv Hh.
  destruct (handle_queue r db db' Hh) as (kept & new & Hq & Hkept & Hnew).
  assert (∀ opd x, x ∈ positions_of opd (queue db) →
                   x < max_position opd (queue db) + 1) as Habove
    by (intros; by apply max_position_above).
  split; [|split; [|split; [|split]]].
  - intros opd. rewrite Hq. unfold positions_of.
    rewrite filter_app, fmap_app. fold (positions_of opd kept).
    pose proof (positions_of_sublist opd _ _ Hkept) as Hsub.
    apply StronglySorted_app_2.
    + intros x1 x2 Hx1 Hx2.
      destruct Hnew as [->|(opd' & pid & st & ->)];
        [by apply elem_of_nil in Hx2|].
      rewrite filter_cons in Hx2. case_decide as Hopd; simpl in Hx2;
        [|by apply elem_of_nil in Hx2].
      apply list_elem_of_singleton in Hx2. subst x2. simpl in Hopd. subst opd'.
      apply Habove. by eapply elem_of_sublist.
    + by eapply StronglySorted_sublist.
    + destruct Hnew as [->|(opd' & pid & st & ->)]; [constructor|].
      rewrite filter_cons. case_decide; simpl; repeat constructor.
  - intros opd. constructor.
  - exists kept, new. split; [done|]. split; [done|].
    destruct Hnew as [->|(opd & pid & st & ->)]; [by left|right].
    exists opd, pid, st. split; [done|]. split.
    + intros q Hq' Hopd. apply Habove. unfold positions_of.
      apply list_elem_of_fmap. exists q. split; [done|].
      by apply list_elem_of_filter.
    + intros Hnone. by rewrite max_position_empty.
  - intros pid opd ->. simpl in Hh. unfold allocate_opd in Hh.
    destruct (get_patient pid db); [|discriminate]. by injection Hh as <-.
  - intros pid to -> Hnone. simpl in Hh.
    destruct (get_patient pid db) as [p|] eqn:Hp.
    2:{ unfold refer_patient in Hh. rewrite Hp in Hh. discriminate. }
    destruct (refer_patient_Ok pid to db p Hp) as (db1 & Hdb1 & _ & Hq1).
    assert (db1 = db') as -> by congruence. cbv zeta in Hq1.
    set (qs := origin_marked pid (Patient.allocated_opd p) (queue db)) in *.
    destruct (first (filter (entry_of pid to) qs)) as [q0|] eqn:Hq0.
    + exfalso. apply first_filter_Some in Hq0 as [Hin He].
      apply origin_marked_elem in Hin as (q1 & Hin1 & Hs).
      apply (Hnone q1 Hin1). unfold entry_of, slot in *.
      destruct He. split; congruence.
    + exists qs. split; [apply origin_marked_slots|].
      unfold qs in Hq1 at 2. by rewrite origin_marked_max_position in Hq1.
Qed.

End Positions.

(** C4, a witness of the hypotheses: the second allocation to "eye". *)
Lemma queue_positions_increasing_witness :
  positions_increasing three_db ∧
  ∃ db', handle (AllocateOPD 2 eye) three_db = Ok db' ∧
         positions_increasing db' ∧
         positions_of eye (queue db') = [1; 2].
Proof.
  assert (positions_increasing three_db) as Hinv.
  { intros []; vm_compute; repeat constructor. }
  split; [exact Hinv|].
  destruct (handle (AllocateOPD 2 eye) three_db) as [db'|e] eqn:Hh;
    [|vm_compute in Hh; discriminate].
  exists db'. split; [reflexivity|].
  destruct (queue_positions_increasing (AllocateOPD 2 eye) three_db db' Hinv Hh)
    as (Hinv' & _ & _ & Halloc & _).
  split; [exact Hinv'|]. rewrite (Halloc 2 eye eq_refl).
  vm_compute. reflexivity.
Defined.

(** A gap persists: with positions 1, 2, 3 in "eye" and the entry at 2
    deleted, the next allocation gets 4. *)
Example allocate_after_gap :
  positions_of eye
    (queue (run [AllocateOPD 2 eye; AllocateOPD 3 eye; EndVisit 2 30;
                 AllocateOPD 2 eye] three_db)) = [1; 3; 4].
Proof. vm_compute. reflexivity. Qed.

(** C4, as stated, fails for the entries created over time: patient 2 is
    allocated to "eye" at position 2 and completes the visit, which deletes
    the entry; the entry created next in "eye", for patient 3, gets position
    2 again, the maximum of the remaining positions plus one. *)
Lemma position_issued_again :
  ∃ db1 db2 db3 pos2 pos3,
    allocate_opd 2 eye three_db = Ok (pos2, db1) ∧
    end_patient_visit 2 30 db1 = Ok db2 ∧
    allocate_opd 3 eye db2 = Ok (pos3, db3) ∧
    pos2 = 2 ∧ pos3 = 2 ∧ ¬ pos2 < pos3.
Proof.
  eexists _, _, _, _, _. split; [vm_compute; reflexivity|].
  split; [vm_compute; reflexivity|]. split; [vm_compute; reflexivity|].
  split; [reflexivity|]. split; [reflexivity|]. lia.
Qed.

(** ** C8: the destination queue of a referral *)

Section Destination.
Context `{OPDEnum OPD}.
Implicit Types (db : DB OPD) (p : Patient.t OPD) (q : Queue.t OPD).

Lemma foldl_max_elem (l : list Z) (x : Z) : foldl Z.max x l ∈ x :: l.
Proof.
  revert x. induction l as [|y l IH]; intros x; simpl; [left|].
  specialize (IH (Z.max x y)).
  apply elem_of_cons in IH as [->|IH]; [|by do 2 right].
  destruct (Z.max_spec x y) as [[_ ->]|[_ ->]]; [right; left|left].
Qed.

Lemma func_max_elem (l : list Z) (m : Z) : func_max l = Some m → m ∈ l.
Proof.
  destruct l as [|x l]; [done|]. simpl. intros [= <-]. apply foldl_max_elem.
Qed.

(** The next position of a department is 1 when the department has no
    entry, and otherwise one above the position of one of its entries. *)
Lemma max_position_attained opd (qs : list (Queue.t OPD)) :
  (∃ q, q ∈ qs ∧ Queue.opd_type q = opd ∧
        max_position opd qs + 1 = Queue.position q + 1) ∨
  ((∀ q, q ∈ qs → Queue.opd_type q ≠ opd) ∧ max_position opd qs + 1 = 1).
Proof.
  rewrite max_position_positions.
  destruct (func_max (positions_of opd qs)) as [m|] eqn:Hm.
  - left. apply func_max_elem in Hm. unfold positions_of in Hm.
    apply list_elem_of_fmap in Hm as (q & -> & Hq).
    apply list_elem_of_filter in Hq as [Hopd Hq].
    exists q. by rewrite or_0_Some.
  - right. split; [|done]. intros q Hq Hopd.
    unfold positions_of in Hm.
    destruct (filter (λ q, Queue.opd_type q = opd) qs) as [|q' l] eqn:E;
      [|done].
    by eapply (filter_nil_not_elem_of (λ q, Queue.opd_type q = opd)).
Qed.

Lemma update_first_lookup {A} (P : A → Prop) `{∀ x, Decision (P x)} f
    (l : list A) i x y :
  l !! i = Some x → update_first P f l !! i = Some y → y = x ∨ y = f x.
Proof.
  revert i. induction l as [|z l IH]; intros i Hx Hy; [done|].
  simpl in Hy. case_decide.
  - destruct i as [|i]; simpl in *; [right|left]; congruence.
  - destruct i as [|i]; simpl in *; [left; congruence|eauto].
Qed.

(** Row by row, a referral leaves a queue entry as it is or sets its status
    to REFERRED. *)
Lemma refer_patient_row patient_id to_opd db db' p i q q' :
  get_patient patient_id db = Some p →
  refer_patient patient_id to_opd db = Ok db' →
  queue db !! i = Some q → queue db' !! i = Some q' →
  q' = q ∨ q' = set_status REFERRED q.
Proof.
  intros Hp Hdb' Hq Hq'.
  destruct (refer_patient_Ok patient_id to_opd db p Hp) as (db1 & Hdb1 & _ & Hqs).
  assert (db1 = db') as -> by congruence. cbv zeta in Hqs.
  set (qs := origin_marked patient_id (Patient.allocated_opd p) (queue db)) in *.
  assert (length qs = length (queue db)) as Hlen.
  { unfold qs. rewrite <- (length_fmap slot), origin_marked_slots.
    apply length_fmap. }
  assert (∃ q1, qs !! i = Some q1) as [q1 Hq1].
  { apply lookup_lt_is_Some. rewrite Hlen. by eapply lookup_lt_Some. }
  assert (q1 = q ∨ q1 = set_status REFERRED q) as Hstep1.
  { unfold qs in Hq1. destruct (Patient.allocated_opd p) as [from|];
      simpl in Hq1; [|left; congruence].
    by eapply (update_first_lookup (entry_of patient_id from)). }
  assert (q' = q1 ∨ q' = set_status REFERRED q1) as Hstep2.
  { rewrite Hqs in Hq'.
    destruct (first (filter (entry_of patient_id to_opd) qs)).
    - by eapply (update_first_lookup (entry_of patient_id to_opd)).
    - rewrite lookup_app_l in Hq' by (by eapply lookup_lt_Some).
      left. congruence. }
  destruct Hstep1 as [->| ->], Hstep2 as [->| ->]; auto.
Qed.

(** C8.  A referral of an existing patient succeeds, and a repeated referral
    to the same destination succeeds and leaves the queue table as the first
    one left it.  If the patient already has an entry in the destination
    department, no entry is created: the table keeps its length, every row
    keeps its department, patient, position and time stamp, and its status
    is kept or becomes REFERRED; the patient's first entry in the destination
    has status REFERRED afterwards and the position and time stamp it had.
    If the patient has none, the table is the earlier one (row by row as
    before) followed by exactly one new entry: for the patient, in the
    destination department, with status REFERRED and a position above every
    position in that department, namely one more than the position of one of
    its entries, or 1 when the department has none. *)
Theorem refer_patient_destination patient_id to_opd db p :
  get_patient patient_id db = Some p →
  ∃ db',
    refer_patient patient_id to_opd db = Ok db' ∧
    (∃ db'', refer_patient patient_id to_opd db' = Ok db'' ∧
             queue db'' = queue db') ∧
    (∀ i q q', queue db !! i = Some q → queue db' !! i = Some q' →
       Queue.opd_type q' = Queue.opd_type q ∧
       Queue.patient_id q' = Queue.patient_id q ∧
       Queue.position q' = Queue.position q ∧
       Queue.updated_at q' = Queue.updated_at q ∧
       (Queue.status q' = Queue.status q ∨ Queue.status q' = REFERRED)) ∧
    (∀ q0, first (filter (entry_of patient_id to_opd) (queue db)) = Some q0 →
       length (queue db') = length (queue db) ∧
       slot <$> queue db' = slot <$> queue db ∧
       ∃ q1,
         first (filter (entry_of patient_id to_opd) (queue db')) = Some q1 ∧
         Queue.status q1 = REFERRED ∧
         Queue.opd_type q1 = to_opd ∧
         Queue.patient_id q1 = patient_id ∧
         Queue.position q1 = Queue.position q0 ∧
         Queue.updated_at q1 = Queue.updated_at q0) ∧
    ((∀ q, q ∈ queue db → ¬ entry_of patient_id to_opd q) →
       ∃ qs new,
         queue db' = qs ++ [new] ∧
         length qs = length (queue db) ∧
         slot <$> qs = slot <$> queue db ∧
         filter (entry_of patient_id to_opd) (queue db') = [new] ∧
         Queue.opd_type new = to_opd ∧
         Queue.patient_id new = patient_id ∧
         Queue.status new = REFERRED ∧
         (∀ q, q ∈ queue db → Queue.opd_type q = to_opd →
               Queue.position q < Queue.position new) ∧
         ((∃ q, q ∈ queue db ∧ Queue.opd_type q = to_opd ∧
                Queue.position new = Queue.position q + 1) ∨
          ((∀ q, q ∈ queue db → Queue.opd_type q ≠ to_opd) ∧
           Queue.position new = 1))).
Proof.
  intros Hp.
  destruct (refer_destination_shape patient_id to_opd db p Hp)
    as (db' & Hdb' & Hagain & Hpresent & Habsent).
  exists db'. split; [done|]. split; [done|]. split; [|split].
  - intros i q q' Hq Hq'.
    destruct (refer_patient_row patient_id to_opd db db' p i q q' Hp Hdb' Hq Hq')
      as [->| ->]; simpl; repeat split; auto.
  - intros q0 Hq0.
    destruct (Hpresent q0 Hq0) as (Hslots & Hlen & Hfirst & _ & _).
    apply first_filter_Some in Hq0 as [_ [Hpid Hopd]].
    split; [done|]. split; [done|].
    exists (set_status REFERRED q0). by repeat split.
  - intros Hnone. destruct (Habsent Hnone) as (qs & Hq & Hslots & Hlen & Hfilter).
    eexists qs, _. split; [exact Hq|]. split.
    { rewrite <- (length_fmap slot qs), Hslots. apply length_fmap. }
    split; [done|]. split; [done|]. split; [done|]. split; [done|].
    split; [done|]. cbn [Queue.position]. split.
    + intros q Hin Hopd. apply max_position_above. unfold positions_of.
      apply list_elem_of_fmap. exists q. split; [done|].
      by apply list_elem_of_filter.
    + apply max_position_attained.
Qed.

End Destination.

(** C8, a witness of the hypothesis: the referral of the allocated patient
    from "eye" to "ent", where the patient has no entry yet. *)
Lemma refer_patient_destination_witness :
  ∃ p, get_patient 1 allocated_db = Some p ∧
  ∃ db',
    refer_patient 1 ent allocated_db = Ok db' ∧
    (∃ db'', refer_patient 1 ent db' = Ok db'' ∧ queue db'' = queue db').
Proof.
  eexists. split; [vm_compute; reflexivity|].
  destruct (refer_patient_destination 1 ent allocated_db _ eq_refl)
    as (db' & Hdb' & Hagain & _).
  exists db'. auto.
Defined.

(** ** Text lemmas *)

Section TextFacts.

Lemma startswith_app (pre s : string) : Text.startswith pre (pre +:+ s) = true.
Proof.
  induction pre as [|a pre IH]; simpl; [done|].
  by rewrite Ascii.eqb_refl, IH.
Qed.

(** A prefix as long as the prefix it is compared to is that prefix. *)
Lemma startswith_same_length (pre pre' s : string) :
  String.length pre = String.length pre' →
  Text.startswith pre (pre' +:+ s) = true → pre = pre'.
Proof.
  revert pre'. induction pre as [|a pre IH]; intros [|b pre']; simpl;
    try done.
  intros [= Hlen] [Hab Hrest]%andb_true_iff.
  apply Ascii.eqb_eq in Hab. subst b. f_equal. by apply IH.
Qed.

Lemma split_app_sep (sep : ascii) (a b : string) :
  ∃ l, Text.split sep (a +:+ String sep b) = l ++ Text.split sep b ∧ l ≠ [].
Proof.
  induction a as [|c a (l & IH & Hl)]; simpl.
  - rewrite Ascii.eqb_refl. by exists [EmptyString].
  - destruct (Ascii.eqb c sep).
    + exists (EmptyString :: l). by rewrite IH.
    + rewrite IH. destruct l as [|w l]; [done|].
      by exists (String c w :: l).
Qed.

Lemma split_nonempty (sep : ascii) (s : string) : Text.split sep s ≠ [].
Proof.
  destruct s as [|c s]; simpl; [done|].
  destruct (Ascii.eqb c sep); [done|]. by destruct (Text.split sep s).
Qed.

Lemma last_item_app (l k : list string) :
  k ≠ [] → Text.last_item (l ++ k) = Text.last_item k.
Proof.
  intros Hk. unfold Text.last_item. induction l as [|x l IH]; [done|].
  simpl. rewrite IH. destruct (l ++ k) eqn:E; [|done].
  by apply app_eq_nil in E as [_ ?].
Qed.

Lemma split_decimal (d : Decimal.uint) :
  Text.split "-" (NilEmpty.string_of_uint d) = [NilEmpty.string_of_uint d].
Proof. induction d; simpl; [done|by rewrite IHd..]. Qed.

Lemma split_zeros (k : nat) (s : string) :
  Text.split "-" s = [s] →
  Text.split "-" (Text.zeros k +:+ s) = [Text.zeros k +:+ s].
Proof. intros Hs. induction k as [|k IH]; simpl; [done|by rewrite IH]. Qed.

Lemma split_fmt_04d (n : nat) :
  Text.split "-" (Text.fmt_04d n) = [Text.fmt_04d n].
Proof. apply split_zeros, split_decimal. Qed.

(** The allocator reads back the sequence number that was formatted into a
    token. *)
Lemma last_item_token (day : string) (n : nat) :
  Text.last_item (Text.split "-" (day +:+ "-" +:+ Text.fmt_04d n)) =
  Text.fmt_04d n.
Proof.
  destruct (split_app_sep "-" day (Text.fmt_04d n)) as (l & Hl & _).
  change (day +:+ "-" +:+ Text.fmt_04d n)
    with (day +:+ String "-" (Text.fmt_04d n)).
  rewrite Hl, last_item_app by apply split_nonempty.
  by rewrite split_fmt_04d.
Qed.

Lemma uint_of_string_zeros (k : nat) (s : string) d :
  NilEmpty.uint_of_string s = Some d →
  ∃ d', NilEmpty.uint_of_string (Text.zeros k +:+ s) = Some d' ∧
        Nat.of_uint d' = Nat.of_uint d.
Proof.
  intros Hs. induction k as [|k (d' & IH & Hd')]; simpl; [eauto|].
  rewrite IH. simpl. exists (Decimal.D0 d'). split; [done|].
  rewrite <- Hd'. reflexivity.
Qed.

Lemma to_uint_nonnil (n : nat) : Nat.to_uint n ≠ Decimal.Nil.
Proof.
  rewrite <- (DecimalNat.Unsigned.of_to n) at 1.
  rewrite DecimalNat.Unsigned.to_of. apply DecimalFacts.unorm_nonnil.
Qed.

Lemma int_fmt_04d (n : nat) : Text.int (Text.fmt_04d n) = Some n.
Proof.
  unfold Text.int, Text.fmt_04d, Text.decimal. cbv zeta.
  destruct (uint_of_string_zeros
              (4 - String.length (NilEmpty.string_of_uint (Nat.to_uint n)))
              _ _ (NilEmpty.usu (Nat.to_uint n))) as (d' & Hd' & Hval).
  assert (NilZero.uint_of_string
            (Text.zeros (4 - String.length (NilEmpty.string_of_uint (Nat.to_uint n)))
             +:+ NilEmpty.string_of_uint (Nat.to_uint n)) = Some d') as ->.
  { unfold NilZero.uint_of_string.
    destruct (Text.zeros _ +:+ _) eqn:E; [|done].
    exfalso. pose proof (to_uint_nonnil n) as Hn.
    destruct (Text.zeros _) in E; [|done]. simpl in E.
    destruct (Nat.to_uint n); done. }
  simpl. by rewrite Hval, DecimalNat.Unsigned.of_to.
Qed.

Lemma length_app_string (s1 s2 : string) :
  String.length (s1 +:+ s2) = (String.length s1 + String.length s2)%nat.
Proof. induction s1 as [|a s1 IH]; simpl; [done|by rewrite IH]. Qed.

Lemma length_zeros (k : nat) : String.length (Text.zeros k) = k.
Proof. induction k as [|k IH]; simpl; [done|by rewrite IH]. Qed.

(** The formatted number is at least four characters wide. *)
Lemma length_fmt_04d_ge (n : nat) : (4 ≤ String.length (Text.fmt_04d n))%nat.
Proof.
  unfold Text.fmt_04d. cbv zeta. rewrite length_app_string, length_zeros. lia.
Qed.

(** Below ten thousand it is exactly four characters wide. *)
Lemma length_fmt_04d_eq (n : nat) :
  (n < 10 * 1000)%nat → String.length (Text.fmt_04d n) = 4%nat.
Proof.
  intros Hn.
  assert (forallb (λ n, Nat.eqb (String.length (Text.fmt_04d n)) 4)
            (seq 0 (10 * 1000)) = true) as Hall by (vm_compute; reflexivity).
  rewrite forallb_forall in Hall. apply Nat.eqb_eq, Hall, in_seq. lia.
Qed.

End TextFacts.

(** ** C3: token allocation *)

Section Tokens.
Context `{OPDEnum OPD}.
Implicit Types (db : DB OPD) (p : Patient.t OPD) (ps : list (Patient.t OPD)).

Lemma token_seq_token_of (day : string) (n : nat) :
  token_seq (token_of day n) = Some n.
Proof.
  unfold token_seq, token_of. by rewrite last_item_token, int_fmt_04d.
Qed.

Lemma startswith_token_of (today day : string) (n : nat) :
  String.length today = 8%nat → String.length day = 8%nat →
  Text.startswith today (token_of day n) → today = day.
Proof.
  intros Ht Hd Hs. apply Is_true_true in Hs.
  eapply startswith_same_length; [|exact Hs]. congruence.
Qed.

Lemma issued_today_snoc today ps p :
  issued_today today (ps ++ [p]) =
  issued_today today ps ++
    (if decide (Text.startswith today (Patient.token_number p)) then [p] else []).
Proof.
  unfold issued_today. rewrite filter_app. f_equal.
Qed.

(** The row with the largest id is the first in descending id order. *)
Lemma first_order_by_desc_snoc (l : list (Patient.t OPD)) p :
  (∀ x, x ∈ l → Patient.id x < Patient.id p) →
  first (order_by_desc Patient.id (l ++ [p])) = Some p.
Proof.
  intros Hmax.
  pose proof (order_by_desc_perm Patient.id (l ++ [p])) as Hperm.
  pose proof (order_by_desc_sorted Patient.id (l ++ [p])) as Hsort.
  destruct (order_by_desc Patient.id (l ++ [p])) as [|h t] eqn:E.
  { apply Permutation_nil_l in Hperm. by destruct l. }
  unfold first. simpl. f_equal.
  assert (h ∈ l ++ [p]) as Hh by (rewrite <- Hperm; left).
  assert (p ∈ h :: t) as Hp
    by (rewrite Hperm; apply elem_of_app; right; left).
  apply elem_of_app in Hh as [Hh|Hh%list_elem_of_singleton]; [|done].
  apply elem_of_cons in Hp as [->|Hp]; [done|].
  apply StronglySorted_cons in Hsort as [Hall _].
  rewrite Forall_forall in Hall. specialize (Hall p Hp). unfold desc in Hall.
  specialize (Hmax h Hh). lia.
Qed.

(** On a table built by registrations the allocator returns the token of
    the next sequence number of the day. *)
Lemma generate_token_number_next today db :
  tokens_ok (patients db) → String.length today = 8%nat →
  generate_token_number today db =
    Ok (token_of today (S (length (issued_today today (patients db))))).
Proof.
  intros Hok Htoday. unfold generate_token_number.
  fold (issued_today today (patients db)).
  induction Hok as [|ps p day Hok IH Hday Htok Hid]; [done|].
  rewrite issued_today_snoc. case_decide as Hpre.
  - rewrite first_order_by_desc_snoc.
    2:{ intros x Hx. apply Hid. unfold issued_today in Hx.
        apply list_elem_of_filter in Hx. tauto. }
    rewrite Htok in Hpre.
    apply startswith_token_of in Hpre as ->; [|done..].
    fold (token_seq (Patient.token_number p)).
    rewrite Htok, token_seq_token_of, length_app. simpl.
    unfold token_of. repeat f_equal; lia.
  - rewrite app_nil_r. apply IH.
Qed.

Lemma max_list_with_snoc {A} (f : A → nat) (l : list A) x :
  max_list_with f (l ++ [x]) = (max_list_with f l `max` f x)%nat.
Proof. induction l as [|y l IH]; simpl; [lia|]. rewrite IH. lia. Qed.

(** On such a table the highest sequence number of a day is the number of
    tokens of that day, and every token of the day carries a number from 1
    up to it. *)
Lemma highest_seq_count today ps :
  tokens_ok ps → String.length today = 8%nat →
  highest_seq today ps = length (issued_today today ps) ∧
  ∀ p', p' ∈ issued_today today ps →
        ∃ n', token_seq (Patient.token_number p') = Some n' ∧
              (1 ≤ n' ≤ length (issued_today today ps))%nat.
Proof.
  intros Hok Htoday. unfold highest_seq.
  induction Hok as [|ps p day Hok [IHmax IHall] Hday Htok Hid];
    [split; [done|by intros ? ?%elem_of_nil]|].
  rewrite issued_today_snoc. case_decide as Hpre.
  - rewrite Htok in Hpre.
    apply startswith_token_of in Hpre as ->; [|done..].
    rewrite max_list_with_snoc, IHmax, Htok, token_seq_token_of, length_app.
    simpl. split; [lia|].
    intros p' [Hp'|Hp'%list_elem_of_singleton]%elem_of_app.
    + destruct (IHall p' Hp') as (n' & ? & ?). exists n'. split; [done|lia].
    + subst p'. rewrite Htok, token_seq_token_of. eexists. split; [done|lia].
  - rewrite app_nil_r. done.
Qed.

Lemma tokens_ok_NoDup ps : tokens_ok ps → NoDup (Patient.id <$> ps).
Proof.
  induction 1 as [|ps p day Hok IH Hday Htok Hid]; [constructor|].
  rewrite fmap_app. apply NoDup_app. split; [done|]. split.
  - intros x (p' & -> & Hp')%list_elem_of_fmap Hx.
    apply list_elem_of_singleton in Hx. specialize (Hid p' Hp'). simpl in Hx. lia.
  - apply NoDup_singleton.
Qed.

Lemma issued_today_length_tokens today (ps ps' : list (Patient.t OPD)) :
  Patient.token_number <$> ps' = Patient.token_number <$> ps →
  length (issued_today today ps') = length (issued_today today ps).
Proof.
  revert ps. induction ps' as [|p' ps' IH]; intros [|p ps] Heq; try done.
  rewrite !fmap_cons in Heq. injection Heq as Htok Heq.
  unfold issued_today. rewrite !filter_cons, Htok.
  case_decide; simpl; [f_equal|]; by apply IH.
Qed.

(** [tokens_ok] looks at the ids and the tokens only. *)
Lemma tokens_ok_same_keys ps ps' :
  tokens_ok ps →
  Patient.id <$> ps' = Patient.id <$> ps →
  Patient.token_number <$> ps' = Patient.token_number <$> ps →
  tokens_ok ps'.
Proof.
  intros Hok. revert ps'.
  induction Hok as [|ps p day Hok IH Hday Htok Hid]; intros ps' Hids Htoks.
  - apply fmap_nil_inv in Hids. subst. constructor.
  - rewrite fmap_app in Hids. rewrite fmap_app in Htoks.
    apply fmap_app_inv in Hids as (l1 & l2 & Hl1 & Hl2 & ->).
    destruct l2 as [|p2 [|? ?]]; try done.
    assert (length l1 = length ps) as Hlen.
    { apply (f_equal length) in Hl1. by rewrite !length_fmap in Hl1. }
    rewrite fmap_app in Htoks. apply app_inj_1 in Htoks as [Ht1 Ht2];
      [|by rewrite !length_fmap].
    injection Hl2 as Hid2. injection Ht2 as Htok2.
    apply (tokens_ok_snoc l1 p2 day); [by apply IH|done| |].
    + rewrite Htok2, Htok. by rewrite (issued_today_length_tokens day ps l1).
    + intros p' Hp'. rewrite <- Hid2.
      assert (Patient.id p' ∈ Patient.id <$> ps) as Hin.
      { rewrite Hl1. apply list_elem_of_fmap. eauto. }
      apply list_elem_of_fmap in Hin as (p'' & -> & Hp''). by apply Hid.
Qed.

Lemma generate_token_number_shape today db token_number :
  generate_token_number today db = Ok token_number →
  ∃ n, token_number = token_of today n.
Proof.
  unfold generate_token_number. intros Hg.
  destruct (first _) as [last|] in Hg.
  - destruct (Text.int _) as [n|] in Hg; [|discriminate].
    injection Hg as <-. by eexists.
  - injection Hg as <-. by eexists.
Qed.

Lemma handle_tokens_ok (r : request OPD) db db' :
  tokens_ok (patients db) → well_dated r → handle r db = Ok db' →
  tokens_ok (patients db').
Proof.
  intros Hok Hwd Hh. apply handle_patients in Hh.
  destruct (target r) as [pid|].
  - destruct Hh as (p & Hp & ->).
    destruct (get_patient_Some _ _ _ Hp) as [Hin _].
    pose proof (tokens_ok_NoDup _ Hok) as Hnd.
    assert (∀ p0, p0 ∈ patients db →
              Patient.id p0 = Patient.id (written r p) → p0 = p) as Huniq.
    { intros p0 Hp0 Hid. rewrite written_id in Hid.
      apply list_elem_of_lookup in Hp0 as [i Hi].
      apply list_elem_of_lookup in Hin as [j Hj].
      by destruct (primary_key_unique db i j p0 p Hnd Hi Hj Hid). }
    eapply tokens_ok_same_keys; [exact Hok| |]; unfold save_patient;
      rewrite <- list_fmap_compose; apply list_fmap_ext; intros i p0 Hi;
      simpl; (case_decide as Hd; [|done]);
      rewrite (Huniq p0) by (done || apply list_elem_of_lookup; eauto).
    + apply written_id.
    + apply written_token_number.
  - destruct Hh as (pd & today & now & tok & -> & Hgen & ->).
    simpl in Hwd. rewrite generate_token_number_next in Hgen by done.
    injection Hgen as <-.
    apply (tokens_ok_snoc _ _ today); [done..|].
    intros p' Hp'. by apply next_id_fresh.
Qed.

Lemma run_tokens_ok (rs : list (request OPD)) db :
  tokens_ok (patients db) → Forall well_dated rs →
  tokens_ok (patients (run rs db)).
Proof.
  revert db. induction rs as [|r rs IH]; intros db Hok Hwd; [done|].
  apply Forall_cons in Hwd as [Hr Hrs].
  unfold run. simpl. apply IH; [|done].
  unfold serve. destruct (handle r db) as [db'|e] eqn:Hh; [|done].
  by eapply handle_tokens_ok.
Qed.

(** Every token in the table after a run was in the table before or was
    issued by a registration of the run, on that registration's day. *)
Lemma run_token_days (rs : list (request OPD)) db p :
  p ∈ patients (run rs db) →
  (∃ p0, p0 ∈ patients db ∧ Patient.token_number p0 = Patient.token_number p) ∨
  (∃ r day n, r ∈ rs ∧ registration_day r = Some day ∧
              Patient.token_number p = token_of day n).
Proof.
  revert db. induction rs as [|r rs IH]; intros db Hp; [left; eauto|].
  unfold run in Hp. simpl in Hp. apply IH in Hp as [(p0 & Hp0 & Htok)|Hp].
  2:{ destruct Hp as (r' & day & n & ? & ? & ?). right.
      exists r', day, n. split; [by right|done]. }
  unfold serve in Hp0. destruct (handle r db) as [db'|e] eqn:Hh; [|left; eauto].
  apply handle_patients in Hh. destruct (target r) as [pid|].
  - destruct Hh as (p1 & Hp1 & Hps). rewrite Hps in Hp0.
    destruct (get_patient_Some _ _ _ Hp1) as [Hin _].
    apply save_patient_elem in Hp0 as [->|[Hp0 _]]; left.
    + exists p1. split; [done|]. by rewrite <- Htok, written_token_number.
    + eauto.
  - destruct Hh as (pd & today & now & tok & -> & Hgen & Hps).
    rewrite Hps in Hp0. apply elem_of_app in Hp0 as [Hp0|Hp0]; [left; eauto|].
    apply list_elem_of_singleton in Hp0. subst p0. right.
    apply generate_token_number_shape in Hgen as [n ->].
    exists (Register pd today now), today, n. split; [left|]. split; [done|].
    by rewrite <- Htok.
Qed.

(** C3.  In a database built by any requests from the empty one, days
    being written with eight characters, a registration on [today] succeeds
    and gets the token "{today}-{seq:04d}" where [seq] is one more than the
    highest sequence number among the existing tokens with the prefix
    [today], and 1 when there is none; the allocator reads that number back
    from the token.  The new number is above the number of every token
    issued before on that day, and it is the highest of the day afterwards,
    so the numbers of the registrations of one day increase strictly.  The
    number is written with at least four characters, padded with zeros, and
    with exactly four below 10000.  When no registration of the run was on
    [today] the token is "{today}-0001", whatever was issued on other
    days. *)
Theorem token_allocation (rs : list (request OPD)) today patient_data now :
  Forall well_dated rs → String.length today = 8%nat →
  let db := run rs empty_db in
  let seq := highest_seq today (patients db) in
  ∃ p db',
    register_patient patient_data today now db = Ok (p, db') ∧
    generate_token_number today db = Ok (Patient.token_number p) ∧
    Patient.token_number p = today +:+ "-" +:+ Text.fmt_04d (S seq) ∧
    token_seq (Patient.token_number p) = Some (S seq) ∧
    (∀ p', p' ∈ issued_today today (patients db) →
           ∃ n', token_seq (Patient.token_number p') = Some n' ∧
                 (n' < S seq)%nat) ∧
    (issued_today today (patients db) = [] →
     Patient.token_number p = today +:+ "-0001") ∧
    (Forall (λ r, registration_day r ≠ Some today) rs →
     Patient.token_number p = today +:+ "-0001") ∧
    p ∈ issued_today today (patients db') ∧
    highest_seq today (patients db') = S seq ∧
    (4 ≤ String.length (Text.fmt_04d (S seq)))%nat ∧
    ((S seq < 10 * 1000)%nat → String.length (Text.fmt_04d (S seq)) = 4%nat).
Proof.
  intros Hwd Htoday db seq.
  assert (tokens_ok (patients db)) as Hok
    by (apply run_tokens_ok; [constructor|done]).
  pose proof (generate_token_number_next today db Hok Htoday) as Hgen.
  destruct (highest_seq_count today (patients db) Hok Htoday) as [Hseq Hall].
  fold seq in Hseq. rewrite <- Hseq in Hgen, Hall.
  set (p := new_patient (next_id (patients db)) (token_of today (S seq))
              patient_data now : Patient.t OPD).
  assert (∃ db', register_patient patient_data today now db = Ok (p, db') ∧
                 patients db' = patients db ++ [p]) as (db' & Hreg & Hps).
  { unfold register_patient. rewrite Hgen. eexists. split; reflexivity. }
  assert (issued_today today (patients db) = [] →
          Patient.token_number p = today +:+ "-0001") as Hfirst.
  { intros Hnil. simpl. unfold seq, highest_seq. by rewrite Hnil. }
  assert (tokens_ok (patients db')) as Hok'.
  { apply (handle_tokens_ok (Register patient_data today now) db db');
      [done|done|]. simpl. by rewrite Hreg. }
  assert (issued_today today (patients db')
          = issued_today today (patients db) ++ [p]) as Hissued.
  { rewrite Hps, issued_today_snoc. rewrite decide_True; [done|].
    simpl. apply Is_true_true, startswith_app. }
  exists p, db'. split; [done|]. split; [done|]. split; [done|].
  split; [apply token_seq_token_of|].
  split.
  { intros p' Hp'. destruct (Hall p' Hp') as (n' & ? & ?).
    exists n'. split; [done|lia]. }
  split; [done|].
  split.
  { intros Hnew. apply Hfirst.
    destruct (issued_today today (patients db)) as [|p' l] eqn:E; [done|].
    exfalso. assert (p' ∈ issued_today today (patients db)) as Hp'
      by (rewrite E; left).
    apply list_elem_of_filter in Hp' as [Hpre Hp'].
    apply run_token_days in Hp' as [(p0 & Hp0 & _)|(r & day & n & Hr & Hday & Htok)].
    { by apply elem_of_nil in Hp0. }
    rewrite Forall_forall in Hwd, Hnew.
    specialize (Hwd r Hr). specialize (Hnew r Hr).
    destruct r; try discriminate. simpl in Hwd, Hday, Hnew.
    injection Hday as ->. rewrite Htok in Hpre.
    apply startswith_token_of in Hpre; [|done..]. congruence. }
  split; [rewrite Hissued; apply elem_of_app; right; left|].
  split.
  { destruct (highest_seq_count today (patients db') Hok' Htoday) as [-> _].
    rewrite Hissued, length_app. simpl. lia. }
  split; [apply length_fmt_04d_ge|apply length_fmt_04d_eq].
Qed.

End Tokens.

(** Scenario A: the first registration of a day gets "-0001", the second
    "-0002"; a registration on the next day starts at "-0001" again. *)
Example tokens_of_two_days :
  Patient.token_number <$>
    patients (run [Register asha "20240101" 10; Register asha "20240101" 11;
                   Register asha "20240102" 12] (@empty_db ScenarioOPD)) =
  ["20240101-0001"; "20240101-0002"; "20240102-0001"].
Proof. vm_compute. reflexivity. Qed.

(** C3, a witness of the hypotheses: the fourth registration of the day,
    after three registrations and an allocation. *)
Lemma token_allocation_witness :
  Forall well_dated
    [Register asha "20240101" 10; Register asha "20240101" 11;
     Register asha "20240101" 12; AllocateOPD 1 eye] ∧
  String.length "20240101" = 8%nat ∧
  ∃ p db',
    register_patient asha "20240101" 13 three_db = Ok (p, db') ∧
    Patient.token_number p = "20240101-0004".
Proof.
  assert (Forall well_dated
            [Register asha "20240101" 10; Register asha "20240101" 11;
             Register asha "20240101" 12; AllocateOPD 1 (OPD := ScenarioOPD) eye])
    as Hwd by (repeat constructor).
  split; [exact Hwd|]. split; [reflexivity|].
  destruct (token_allocation _ "20240101" asha 13 Hwd eq_refl)
    as (p & db' & Hreg & _ & Htok & _).
  exists p, db'. split; [exact Hreg|]. rewrite Htok. vm_compute. reflexivity.
Defined.

(** * Further properties of the handlers *)

(** ** Errors, registration and the flow log *)

Section Handlers.
Context `{OPDEnum OPD}.
Implicit Types (db : DB OPD) (p : Patient.t OPD) (q : Queue.t OPD).



(** The shape of a status update's result. *)
Lemma update_patient_status_Ok patient_id status notes now now' db p :
  get_patient patient_id db = Some p →
  ∃ db',
    update_patient_status patient_id status notes now now' db = Ok db' ∧
    patients db' =
      save_patient
        (written (UpdateStatus patient_id status notes now now') p)
        (patients db) ∧
    queue db' =
      (if decide (status = COMPLETED)
       then filter (λ q, ¬ entry_of_opt patient_id (Patient.allocated_opd p) q)
                   (queue db)
       else update_first (entry_of_opt patient_id (Patient.allocated_opd p))
              (λ q, set_updated_at (Some now') (set_status status q))
              (queue db)) ∧
    patient_flow db' =
      patient_flow db ++
        [PatientFlow.mk patient_id (Patient.current_room p) None status notes].
Proof.
  intros Hp. unfold update_patient_status. rewrite Hp.
  set (sel := entry_of_opt patient_id (Patient.allocated_opd p)).
  assert (∀ qs : list (Queue.t OPD),
            match first (filter sel qs) with
            | Some _ =>
                update_first sel
                  (λ q, set_updated_at (Some now') (set_status status q)) qs
            | None => qs
            end
            = update_first sel
                (λ q, set_updated_at (Some now') (set_status status q)) qs)
    as Hupd.
  { intros qs. destruct (first (filter sel qs)) eqn:Hf; [done|].
    symmetry. apply update_first_absent. by apply (first_filter_None sel). }
  cbn [written]. destruct (decide (status = DILATED)) as [->|Hd].
  - rewrite decide_False by discriminate.
    eexists. split; [reflexivity|]. cbn [patients queue patient_flow].
    split; [done|]. split; [apply Hupd|done].
  - destruct (decide (status = COMPLETED)) as [->|Hc].
    + eexists. split; [reflexivity|]. cbn [patients queue patient_flow].
      split; [done|]. split; [|done].
      cbn [Patient.allocated_opd set_completed_at set_current_status].
      fold sel. rewrite Hupd. apply update_first_absent.
      intros q Hq. apply list_elem_of_filter in Hq. tauto.
    + eexists. split; [reflexivity|]. cbn [patients queue patient_flow].
      split; [done|]. split; [apply Hupd|done].
Qed.







Lemma handle_patient_flow (r : request OPD) db db' :
  handle r db = Ok db' →
  ∃ e, patient_flow db' = patient_flow db ++ [e] ∧
       ∀ patient_id, target r = Some patient_id →
                     PatientFlow.patient_id e = patient_id.
Proof.
  destruct r as [pd today now|pid opd|pid st notes now now'|pid to|pid now];
    cbn [handle target]; intros Hh.
  - unfold register_patient in Hh.
    destruct (generate_token_number today db); [|discriminate].
    injection Hh as <-. eexists. split; [reflexivity|]. discriminate.
  - unfold allocate_opd in Hh.
    destruct (get_patient pid db); [|discriminate]. injection Hh as <-.
    eexists. split; [reflexivity|]. by intros ? [= <-].
  - destruct (get_patient pid db) as [p|] eqn:Hp.
    2:{ unfold update_patient_status in Hh. rewrite Hp in Hh. discriminate. }
    destruct (update_patient_status_Ok pid st notes now now' db p Hp)
      as (db1 & Hdb1 & _ & _ & Hfl).
    assert (db1 = db') as -> by congruence.
    eexists. split; [exact Hfl|]. by intros ? [= <-].
  - unfold refer_patient in Hh.
    destruct (get_patient pid db); [|discriminate]. injection Hh as <-.
    eexists. split; [reflexivity|]. by intros ? [= <-].
  - unfold end_patient_visit in Hh.
    destruct (get_patient pid db); [|discriminate]. injection Hh as <-.
    eexists. split; [reflexivity|]. by intros ? [= <-].
Qed.

(** X3.  The flow log is append-only: whatever requests are served, the log
    before is a prefix of the log after, and it grows by at most one event
    per request; a request that succeeds appends exactly one event, which is
    about the patient of the request. *)
Theorem patient_flow_append_only (rs : list (request OPD)) db :
  patient_flow db `prefix_of` patient_flow (run rs db) ∧
  (length (patient_flow (run rs db)) ≤ length (patient_flow db) + length rs)%nat ∧
  ∀ r db', handle r db = Ok db' →
    ∃ e, patient_flow db' = patient_flow db ++ [e] ∧
         ∀ patient_id, target r = Some patient_id →
                       PatientFlow.patient_id e = patient_id.
Proof.
  split; [|split]; [| |intros r db'; apply handle_patient_flow].
  - revert db. induction rs as [|r rs IH]; intros db; [done|].
    unfold run. simpl. etrans; [|apply IH].
    unfold serve. destruct (handle r db) as [db'|e] eqn:Hh; [|done].
    apply handle_patient_flow in Hh as (e & -> & _). by apply prefix_app_r.
  - revert db. induction rs as [|r rs IH]; intros db; [simpl; lia|].
    unfold run. simpl. etrans; [apply IH|].
    unfold serve. destruct (handle r db) as [db'|e] eqn:Hh; [|lia].
    apply handle_patient_flow in Hh as (e & -> & _).
    rewrite length_app. simpl. lia.
Qed.

End Handlers.



(** ** Allocation, status updates and the frame of a request *)

Section Frames.
Context `{OPDEnum OPD}.
Implicit Types (db : DB OPD) (p : Patient.t OPD) (q : Queue.t OPD).

(** X4.  An allocation of an existing patient sets the patient's department
    and room ("opd_" and the department's value) and leaves the status as it
    was; it appends a PENDING entry at the returned position without looking
    for an entry the patient may already have in that department, so the
    patient's entries there are one more than before; and it logs one flow
    event from "registration" to the room with status PENDING. *)
Theorem allocate_opd_result patient_id opd_type db p :
  get_patient patient_id db = Some p →
  ∃ pos db' p',
    allocate_opd patient_id opd_type db = Ok (pos, db') ∧
    get_patient patient_id db' = Some p' ∧
    Patient.allocated_opd p' = Some opd_type ∧
    Patient.current_room p' = Some ("opd_" +:+ value opd_type) ∧
    Patient.current_status p' = Patient.current_status p ∧
    registered_as p' = registered_as p ∧
    queue db' = queue db ++ [Queue.mk opd_type patient_id pos PENDING None] ∧
    length (filter (entry_of patient_id opd_type) (queue db')) =
      S (length (filter (entry_of patient_id opd_type) (queue db))) ∧
    patient_flow db' =
      patient_flow db ++
        [PatientFlow.mk patient_id (Some "registration")
           (Some ("opd_" +:+ value opd_type)) PENDING None].
Proof.
  intros Hp. destruct (get_patient_Some _ _ _ Hp) as [_ Hid].
  unfold allocate_opd. rewrite Hp.
  eexists _, _, _. split; [reflexivity|]. cbn [patients queue patient_flow].
  split; [apply get_patient_saved; [exact Hid|eauto]|].
  repeat (split; [reflexivity|]). split; [|reflexivity].
  rewrite filter_app, length_app, filter_cons_True by done.
  simpl. lia.
Qed.


Lemma handle_queue_patients (r : request OPD) db db' q :
  handle r db = Ok db' → q ∈ queue db' →
  (∃ q0, q0 ∈ queue db ∧ Queue.patient_id q0 = Queue.patient_id q) ∨
  readmits (Queue.patient_id q) r.
Proof.
  destruct r as [pd today now|pid opd|pid st notes now now'|pid to|pid now];
    cbn [handle readmits]; intros Hh Hq.
  - unfold register_patient in Hh.
    destruct (generate_token_number today db); [|discriminate].
    injection Hh as <-. left. eauto.
  - unfold allocate_opd in Hh.
    destruct (get_patient pid db); [|discriminate]. injection Hh as <-.
    simpl in Hq. apply elem_of_app in Hq as [Hq|Hq]; [left; eauto|].
    apply list_elem_of_singleton in Hq. subst q. by right.
  - destruct (get_patient pid db) as [p|] eqn:Hp.
    2:{ unfold update_patient_status in Hh. rewrite Hp in Hh. discriminate. }
    destruct (update_patient_status_Ok pid st notes now now' db p Hp)
      as (db1 & Hdb1 & _ & Hqs & _).
    assert (db1 = db') as -> by congruence. rewrite Hqs in Hq. left.
    case_decide.
    + apply list_elem_of_filter in Hq as [_ Hq]. eauto.
    + apply update_first_elem in Hq as [Hq|(q0 & Hq0 & _ & ->)]; eauto.
  - destruct (get_patient pid db) as [p|] eqn:Hp.
    2:{ unfold refer_patient in Hh. rewrite Hp in Hh. discriminate. }
    destruct (refer_patient_Ok pid to db p Hp) as (db1 & Hdb1 & _ & Hqs).
    assert (db1 = db') as -> by congruence. cbv zeta in Hqs.
    assert (∀ q1, q1 ∈ origin_marked pid (Patient.allocated_opd p) (queue db) →
              ∃ q0, q0 ∈ queue db ∧ Queue.patient_id q0 = Queue.patient_id q1)
      as Hmarked.
    { intros q1 (q0 & Hq0 & Hs)%origin_marked_elem. exists q0. split; [done|].
      unfold slot in Hs. congruence. }
    rewrite Hqs in Hq. destruct (first _).
    + left. apply update_first_elem in Hq as [Hq|(q1 & Hq1 & _ & ->)];
        [by apply Hmarked|].
      destruct (Hmarked q1 Hq1) as (q0 & ? & ?). by exists q0.
    + apply elem_of_app in Hq as [Hq|Hq]; [left; auto|].
      apply list_elem_of_singleton in Hq. subst q. by right.
  - unfold end_patient_visit in Hh.
    destruct (get_patient pid db); [|discriminate]. injection Hh as <-.
    simpl in Hq. apply list_elem_of_filter in Hq as [_ Hq]. left. eauto.
Qed.

Lemma save_patient_filter_other patient (ps : list (Patient.t OPD)) patient_id :
  Patient.id patient ≠ patient_id →
  filter (λ p, Patient.id p = patient_id) (save_patient patient ps) =
  filter (λ p, Patient.id p = patient_id) ps.
Proof.
  intros Hne. induction ps as [|p ps IH]; [done|].
  unfold save_patient in *. rewrite fmap_cons, !filter_cons, IH.
  destruct (decide (Patient.id p = Patient.id patient)) as [Heq|?]; [|done].
  rewrite !decide_False by congruence. done.
Qed.

(** A request about someone else leaves the row a lookup finds. *)
Lemma handle_get_patient_other (r : request OPD) db db' patient_id p :
  handle r db = Ok db' → target r ≠ Some patient_id →
  get_patient patient_id db = Some p → get_patient patient_id db' = Some p.
Proof.
  intros Hh Hother Hp. apply handle_patients in Hh. unfold get_patient in *.
  destruct (target r) as [pid|].
  - destruct Hh as (p0 & Hp0 & ->).
    apply (first_filter_Some (λ p, Patient.id p = pid)) in Hp0 as [_ Hid].
    rewrite save_patient_filter_other; [done|]. rewrite written_id. congruence.
  - destruct Hh as (pd & today & now & tok & _ & _ & ->).
    rewrite filter_app. unfold first in *.
    destruct (filter (λ p, Patient.id p = patient_id) (patients db)); done.
Qed.

(** Out of the queues: no entry and no allocated department. *)
Lemma serve_keeps_out (r : request OPD) db patient_id :
  ¬ readmits patient_id r →
  (∀ q, q ∈ queue db → Queue.patient_id q ≠ patient_id) →
  (∃ p, get_patient patient_id db = Some p ∧ Patient.allocated_opd p = None) →
  (∀ q, q ∈ queue (serve db r) → Queue.patient_id q ≠ patient_id) ∧
  (∃ p, get_patient patient_id (serve db r) = Some p ∧
        Patient.allocated_opd p = None).
Proof.
  intros Hr Hout (p & Hp & Hnone). unfold serve.
  destruct (handle r db) as [db'|e] eqn:Hh; [|eauto]. split.
  - intros q Hq Hpid.
    destruct (handle_queue_patients r db db' q Hh Hq) as [(q0 & Hq0 & Heq)|Hre].
    + apply (Hout q0 Hq0). congruence.
    + by rewrite Hpid in Hre.
  - destruct (decide (target r = Some patient_id)) as [Ht|Ht].
    + pose proof Hh as Hps. apply handle_patients in Hps. rewrite Ht in Hps.
      destruct Hps as (p0 & Hp0 & Hps).
      assert (p0 = p) as -> by congruence.
      destruct (get_patient_Some _ _ _ Hp) as [_ Hid].
      exists (written r p). split.
      * destruct db' as [ps' qs' fl']. simpl in Hps. rewrite Hps.
        apply get_patient_saved; [by rewrite written_id|eauto].
      * destruct r; simpl in *; try done; try (by injection Ht as ->);
          by repeat case_decide.
    + exists p. split; [|done]. by eapply handle_get_patient_other.
Qed.

(** X6.  After the end of a visit the patient has no queue entry and no
    allocated department, and this stays so under every sequence of later
    requests that holds no allocation and no referral of that patient:
    status updates and further ends of visit of the patient, and whatever
    requests about other patients.  An allocation or a referral of the
    patient is not rejected at that point: it succeeds and puts the patient
    into a queue again. *)
Theorem end_patient_visit_stays_out patient_id now db db1
    (rs : list (request OPD)) :
  end_patient_visit patient_id now db = Ok db1 →
  Forall (λ r, ¬ readmits patient_id r) rs →
  (∀ q, q ∈ queue (run rs db1) → Queue.patient_id q ≠ patient_id) ∧
  (∃ p, get_patient patient_id (run rs db1) = Some p ∧
        Patient.allocated_opd p = None) ∧
  (∀ opd_type, ∃ pos db2 q,
     allocate_opd patient_id opd_type (run rs db1) = Ok (pos, db2) ∧
     q ∈ queue db2 ∧ Queue.patient_id q = patient_id ∧
     Queue.opd_type q = opd_type ∧ Queue.status q = PENDING) ∧
  (∀ to_opd, ∃ db2 q,
     refer_patient patient_id to_opd (run rs db1) = Ok db2 ∧
     q ∈ queue db2 ∧ Queue.patient_id q = patient_id ∧
     Queue.opd_type q = to_opd ∧ Queue.status q = REFERRED).
Proof.
  unfold end_patient_visit at 1. intros Hend Hrs.
  destruct (get_patient patient_id db) as [p|] eqn:Hp; [|discriminate].
  destruct (get_patient_Some _ _ _ Hp) as [_ Hid].
  injection Hend as <-.
  set (p1 := set_referred_to None _).
  set (db1 := mkDB (save_patient p1 (patients db)) _ _).
  assert ((∀ q, q ∈ queue (run rs db1) → Queue.patient_id q ≠ patient_id) ∧
          (∃ p, get_patient patient_id (run rs db1) = Some p ∧
                Patient.allocated_opd p = None)) as [Hout (p2 & Hp2 & Hnone)].
  { assert ((∀ q, q ∈ queue db1 → Queue.patient_id q ≠ patient_id) ∧
            (∃ p, get_patient patient_id db1 = Some p ∧
                  Patient.allocated_opd p = None)) as Hstart.
    { split.
      - intros q Hq. simpl in Hq. apply list_elem_of_filter in Hq. tauto.
      - exists p1. split; [|done]. apply get_patient_saved; [exact Hid|eauto]. }
    clearbody db1. revert db1 Hstart.
    induction Hrs as [|r rs Hr Hrs IH]; intros db1 [Hq Hp1]; [done|].
    unfold run. simpl. apply IH. by apply serve_keeps_out. }
  split; [done|]. split; [eauto|]. split.
  - intros opd_type. unfold allocate_opd. rewrite Hp2.
    eexists _, _, _. split; [reflexivity|]. simpl.
    split; [apply elem_of_app; right; left|]. done.
  - intros to_opd.
    destruct (refer_destination_shape patient_id to_opd (run rs db1) p2 Hp2)
      as (db2 & Hdb2 & _ & _ & Habsent).
    destruct Habsent as (qs & Hqs & _).
    { intros q Hq [Hpid _]. by eapply Hout. }
    eexists db2, _. split; [done|]. rewrite Hqs.
    split; [apply elem_of_app; right; left|]. done.
Qed.

(** X7.  A request writes of its own patient only: the queue entries of
    every other patient stay as they are and in their order, and so does the
    row of every other patient. *)
Theorem request_frame (r : request OPD) db db' :
  handle r db = Ok db' →
  (∀ other, target r ≠ Some other →
     filter (λ q, Queue.patient_id q = other) (queue db') =
     filter (λ q, Queue.patient_id q = other) (queue db)) ∧
  (∀ i p0, patients db !! i = Some p0 → target r ≠ Some (Patient.id p0) →
           patients db' !! i = Some p0).
Proof.
  intros Hh. split.
  - intros other Hother.
    destruct r as [pd today now|pid opd|pid st notes now now'|pid to|pid now];
      cbn [handle target] in *.
    + unfold register_patient in Hh.
      destruct (generate_token_number today db); [|discriminate].
      by injection Hh as <-.
    + unfold allocate_opd in Hh.
      destruct (get_patient pid db); [|discriminate]. injection Hh as <-.
      simpl. rewrite filter_app, filter_cons_False, filter_nil, app_nil_r;
        [done|]. simpl. congruence.
    + destruct (get_patient pid db) as [p|] eqn:Hp.
      2:{ unfold update_patient_status in Hh. rewrite Hp in Hh. discriminate. }
      destruct (update_patient_status_Ok pid st notes now now' db p Hp)
        as (db1 & Hdb1 & _ & Hq & _).
      assert (db1 = db') as -> by congruence. rewrite Hq. case_decide.
      * rewrite list_filter_filter. apply list_filter_iff.
        intros q. split; [tauto|]. intros Hq'. split; [done|].
        intros [? _]. congruence.
      * apply update_first_filter_disjoint; intros q [? _]; simpl; congruence.
    + destruct (get_patient pid db) as [p|] eqn:Hp.
      2:{ unfold refer_patient in Hh. rewrite Hp in Hh. discriminate. }
      destruct (refer_patient_Ok pid to db p Hp) as (db1 & Hdb1 & _ & Hq).
      assert (db1 = db') as -> by congruence. cbv zeta in Hq.
      assert (filter (λ q, Queue.patient_id q = other)
                (origin_marked pid (Patient.allocated_opd p) (queue db))
              = filter (λ q, Queue.patient_id q = other) (queue db)) as Hm.
      { destruct (Patient.allocated_opd p) as [from|]; [|done]. simpl.
        apply update_first_filter_disjoint; intros q [? _]; simpl; congruence. }
      rewrite Hq. destruct (first _).
      * rewrite update_first_filter_disjoint; [done|..];
          intros q [? _]; simpl; congruence.
      * rewrite filter_app, filter_cons_False, filter_nil, app_nil_r;
          [done|]. simpl. congruence.
    + unfold end_patient_visit in Hh.
      destruct (get_patient pid db); [|discriminate]. injection Hh as <-.
      simpl. rewrite list_filter_filter. apply list_filter_iff.
      intros q. split; [tauto|]. intros Hq'. split; [done|]. congruence.
  - intros i p0 Hi Hother. apply handle_patients in Hh.
    destruct (target r) as [pid|].
    + destruct Hh as (p & Hp & ->).
      destruct (get_patient_Some _ _ _ Hp) as [_ Hid].
      apply save_patient_other; [done|]. rewrite written_id. congruence.
    + destruct Hh as (pd & today & now & tok & -> & _ & ->).
      rewrite lookup_app_l; [done|]. by eapply lookup_lt_Some.
Qed.

Lemma written_registered_as (r : request OPD) p :
  registered_as (written r p) = registered_as p.
Proof. destruct r; simpl; repeat case_decide; reflexivity. Qed.

(** X8.  No handler deletes a Patient row or assigns an id, a token, a name,
    an age, a phone or a registration time again: with ids unique before a
    request they are unique after it, every row is still in its place with
    these six fields as they were, and the table has grown by one row for a
    registration and by none otherwise. *)
Theorem registration_data_immutable (r : request OPD) db db' :
  primary_key db → handle r db = Ok db' →
  primary_key db' ∧
  (∀ i p0, patients db !! i = Some p0 →
     ∃ p1, patients db' !! i = Some p1 ∧ registered_as p1 = registered_as p0) ∧
  length (patients db') =
    (length (patients db) +
       match target r with Some _ => 0 | None => 1 end)%nat.
Proof.
  intros Hpk Hh. split; [by eapply handle_primary_key|]. split.
  - intros i p0 Hi. rewrite (handle_row r db db' i p0 Hpk Hh Hi).
    eexists. split; [done|]. case_decide; [apply written_registered_as|done].
  - apply handle_patients in Hh. destruct (target r) as [pid|].
    + destruct Hh as (p & _ & ->). rewrite save_patient_length. lia.
    + destruct Hh as (pd & today & now & tok & _ & _ & ->).
      rewrite length_app. simpl. lia.
Qed.

End Frames.

(** X4, a witness of the hypothesis: a second allocation of patient 1 to
    "eye" gives the patient a second entry there. *)
Lemma allocate_opd_result_witness :
  ∃ p, get_patient 1 allocated_db = Some p ∧
  ∃ pos db',
    allocate_opd 1 eye allocated_db = Ok (pos, db') ∧
    length (filter (entry_of 1 eye) (queue db')) = 2%nat.
Proof.
  eexists. split; [vm_compute; reflexivity|].
  destruct (allocate_opd_result 1 eye allocated_db _ eq_refl)
    as (pos & db' & p' & Hal & _ & _ & _ & _ & _ & _ & Hlen & _).
  exists pos, db'. split; [exact Hal|]. rewrite Hlen. vm_compute. reflexivity.
Defined.


(** X6, a witness of the hypotheses: the visit of the referred patient
    ends; two status updates and a second end of visit follow. *)
Lemma end_patient_visit_stays_out_witness :
  ∃ db1,
    end_patient_visit 1 50 referred_db = Ok db1 ∧
    Forall (λ r, ¬ readmits 1 r)
      [UpdateStatus 1 DILATED None 60 61; EndVisit 1 70;
       UpdateStatus 1 PENDING None 80 (OPD := ScenarioOPD) 81] ∧
    ∀ q, q ∈ queue (run [UpdateStatus 1 DILATED None 60 61; EndVisit 1 70;
                         UpdateStatus 1 PENDING None 80 81] db1) →
         Queue.patient_id q ≠ 1.
Proof.
  destruct (end_patient_visit 1 50 referred_db) as [db1|e] eqn:Hend;
    [|vm_compute in Hend; discriminate].
  exists db1. split; [reflexivity|].
  assert (Forall (λ r, ¬ readmits 1 r)
            [UpdateStatus 1 DILATED None 60 61; EndVisit 1 70;
             UpdateStatus 1 PENDING None 80 (OPD := ScenarioOPD) 81]) as Hrs
    by (repeat constructor; simpl; tauto).
  split; [exact Hrs|].
  exact (proj1 (end_patient_visit_stays_out 1 50 referred_db db1 _ Hend Hrs)).
Defined.

(** X7, a witness of the hypothesis: the end of the visit of patient 2 in
    the scenario with three patients leaves the entry of patient 1. *)
Lemma request_frame_witness :
  ∃ db',
    handle (EndVisit 2 30) three_db = Ok db' ∧
    filter (λ q, Queue.patient_id q = 1) (queue db') =
      [Queue.mk eye 1 1 PENDING None].
Proof.
  destruct (handle (EndVisit 2 30) three_db) as [db'|e] eqn:Hh;
    [|vm_compute in Hh; discriminate].
  exists db'. split; [reflexivity|].
  destruct (request_frame (EndVisit 2 30) three_db db' Hh) as [Hq _].
  rewrite (Hq 1) by discriminate. vm_compute. reflexivity.
Defined.

(** X8, a witness of the hypotheses: a referral in the scenario with three
    patients. *)
Lemma registration_data_immutable_witness :
  primary_key three_db ∧
  ∃ db', handle (Refer 1 ent) three_db = Ok db' ∧
         primary_key db' ∧
         length (patients db') = 3%nat.
Proof.
  assert (primary_key three_db) as Hpk.
  { unfold primary_key. vm_compute. apply (bool_decide_unpack _).
    vm_compute. exact I. }
  split; [exact Hpk|].
  destruct (handle (Refer 1 ent) three_db) as [db'|e] eqn:Hh;
    [|vm_compute in Hh; discriminate].
  exists db'. split; [reflexivity|].
  destruct (registration_data_immutable (Refer 1 ent) three_db db' Hpk Hh)
    as (Hpk' & _ & Hlen).
  split; [exact Hpk'|]. rewrite Hlen. vm_compute. reflexivity.
Defined.

(** ** Pagination, tokens and the referred list *)

Section Queries.
Context `{OPDEnum OPD}.
Implicit Types (db : DB OPD) (p : Patient.t OPD) (q : Queue.t OPD).

(** X9.  Pages of [get_patients] (latest mode off, [skip] and the limits not
    negative): a page holds at most [limit] rows, all of them rows of the
    table that pass the status filter, newest first; the page after it
    continues it, the two together being the page of the summed limit; a
    limit of 0 gives the empty page; and the latest mode is the first page
    of five. *)
Theorem get_patients_pages skip limit1 limit2 status db :
  0 ≤ skip → 0 ≤ limit1 → 0 ≤ limit2 →
  get_patients skip limit1 status None db ++
    get_patients (skip + limit1) limit2 status None db =
    get_patients skip (limit1 + limit2) status None db ∧
  (length (get_patients skip limit1 status None db) ≤ Z.to_nat limit1)%nat ∧
  (∀ p, p ∈ get_patients skip limit1 status None db →
        p ∈ patients db ∧
        ∀ s, status = Some s → Patient.current_status p = s) ∧
  StronglySorted (desc Patient.registration_time)
    (get_patients skip limit1 status None db) ∧
  get_patients skip 0 status None db = [] ∧
  get_patients skip limit1 status (Some true) db =
    get_patients 0 5 status None db.
Proof.
  intros Hs Hl1 Hl2. unfold get_patients, limit, offset.
  rewrite !decide_False by lia.
  set (sorted := order_by_desc Patient.registration_time _).
  split; [|split; [|split; [|split; [|split]]]].
  - rewrite !Z2Nat.inj_add by lia.
    rewrite <- (drop_drop sorted (Z.to_nat limit1) (Z.to_nat skip)).
    apply take_take_drop.
  - rewrite length_take. lia.
  - intros p Hp.
    assert (p ∈ sorted) as Hin.
    { eapply elem_of_sublist; [exact Hp|].
      etrans; [apply sublist_take|apply sublist_drop]. }
    unfold sorted in Hin. rewrite order_by_desc_perm in Hin.
    destruct status as [s|].
    + apply list_elem_of_filter in Hin as [? ?]. split; [done|].
      by intros ? [= <-].
    + split; [done|]. discriminate.
  - eapply StronglySorted_sublist; [|apply order_by_desc_sorted].
    etrans; [apply sublist_take|apply sublist_drop].
  - done.
  - done.
Qed.

Lemma tokens_ok_NoDup_tokens (ps : list (Patient.t OPD)) :
  tokens_ok ps → NoDup (Patient.token_number <$> ps).
Proof.
  induction 1 as [|ps p day Hok IH Hday Htok Hid]; [constructor|].
  rewrite fmap_app. apply NoDup_app. split; [done|].
  split; [|apply NoDup_singleton].
  intros tok (p' & -> & Hp')%list_elem_of_fmap Hin.
  apply list_elem_of_singleton in Hin. simpl in Hin. rewrite Htok in Hin.
  destruct (highest_seq_count day ps Hok Hday) as [_ Hall].
  destruct (Hall p') as (n' & Hn' & Hle).
  { apply list_elem_of_filter. split; [|done].
    rewrite Hin. apply Is_true_true, startswith_app. }
  rewrite Hin, token_seq_token_of in Hn'. injection Hn' as <-. lia.
Qed.

(** X10.  In a database built by requests from the empty one, days being
    written with eight characters, no two patients have the same token and
    no two the same id. *)
Theorem tokens_unique (rs : list (request OPD)) :
  Forall well_dated rs →
  NoDup (Patient.token_number <$> patients (run rs empty_db)) ∧
  NoDup (Patient.id <$> patients (run rs empty_db)).
Proof.
  intros Hwd.
  assert (tokens_ok (patients (run rs (@empty_db OPD)))) as Hok
    by (apply run_tokens_ok; [constructor|done]).
  split; [by apply tokens_ok_NoDup_tokens|by apply tokens_ok_NoDup].
Qed.


Lemma filter_in_effect_Some (v : option string) s :
  filter_in_effect v = Some s →
  v = Some s ∧ s ≠ "" ∧ s ∈ valid_opds.
Proof.
  destruct v as [s'|]; simpl; [|done].
  destruct (truthy s' && bool_decide (s' ∈ valid_opds)) eqn:E; [|done].
  intros [= <-]. apply andb_true_iff in E as [Ht Hv].
  apply bool_decide_eq_true in Hv. split; [done|]. split; [|done].
  by intros ->.
Qed.

Lemma elem_of_referred_rows from_opd to_opd db p :
  p ∈ referred_rows from_opd to_opd db ↔
  p ∈ patients db ∧ Patient.current_status p = REFERRED ∧
  (∀ s, filter_in_effect from_opd = Some s → Patient.referred_from p = Some s) ∧
  (∀ s, filter_in_effect to_opd = Some s → Patient.referred_to p = Some s).
Proof.
  unfold referred_rows. rewrite order_by_asc_perm.
  unfold filter_in_effect.
  destruct from_opd as [f|], to_opd as [t|];
    repeat match goal with
           | |- context [truthy ?s && bool_decide (?s ∈ valid_opds)] =>
               destruct (truthy s && bool_decide (s ∈ valid_opds))
           end;
    rewrite ?list_elem_of_filter;
    (split;
     [intros; repeat split; try tauto; intros ? [= <-]; tauto
     |intros (? & ? & Hf & Ht); repeat split;
        try done; try (by apply Hf); by apply Ht]).
Qed.

(** X12.  What [list_referred_patients] returns: the responses of exactly
    the patients with status REFERRED whose [referred_from] and
    [referred_to] equal the filter values in effect, a value being in effect
    when it is a non-empty string and the value of a department.  So with a
    valid filter every response carries that value; and the empty string is
    never a filter, also where a department has the empty value. *)
Theorem list_referred_patients_selects from_opd to_opd db :
  (∀ resp,
     resp ∈ list_referred_patients from_opd to_opd db ↔
     ∃ p, p ∈ patients db ∧ resp = referred_response p ∧
          Patient.current_status p = REFERRED ∧
          (∀ s, filter_in_effect from_opd = Some s →
                Patient.referred_from p = Some s) ∧
          (∀ s, filter_in_effect to_opd = Some s →
                Patient.referred_to p = Some s)) ∧
  (∀ s resp, from_opd = Some s → s ≠ "" → s ∈ valid_opds →
             resp ∈ list_referred_patients from_opd to_opd db →
             rp_from_opd resp = Some s) ∧
  (∀ s resp, to_opd = Some s → s ≠ "" → s ∈ valid_opds →
             resp ∈ list_referred_patients from_opd to_opd db →
             rp_to_opd resp = Some s) ∧
  list_referred_patients (Some "") to_opd db =
    list_referred_patients None to_opd db ∧
  list_referred_patients from_opd (Some "") db =
    list_referred_patients from_opd None db.
Proof.
  assert (∀ s, s ≠ "" → s ∈ valid_opds → filter_in_effect (Some s) = Some s)
    as Heff.
  { intros s Hs Hv. simpl. rewrite (bool_decide_eq_true_2 _ Hv).
    by destruct s. }
  split; [|split; [|split; [|split]]].
  - intros resp. unfold list_referred_patients. rewrite list_elem_of_fmap.
    split.
    + intros (p & -> & Hp).
      apply elem_of_referred_rows in Hp as (? & ? & ? & ?). by exists p.
    + intros (p & Hp & -> & ? & ? & ?). exists p. split; [done|].
      by apply elem_of_referred_rows.
  - intros s resp -> Hs Hv (p & -> & Hp)%list_elem_of_fmap.
    apply elem_of_referred_rows in Hp as (_ & _ & Hf & _).
    simpl. apply Hf. by apply Heff.
  - intros s resp -> Hs Hv (p & -> & Hp)%list_elem_of_fmap.
    apply elem_of_referred_rows in Hp as (_ & _ & _ & Ht).
    simpl. apply Ht. by apply Heff.
  - reflexivity.
  - reflexivity.
Qed.

(** X13.  A referral does not move the patient: the allocated department and
    the room stay those of the origin, as do the registration data and the
    dilation and completion stamps; [referred_from] is the value of the
    allocated department, or empty when the patient was not allocated.  The
    flow event goes from the origin's room (none for a patient still in
    registration) to the destination's, with a note naming both ("registration"
    for no origin).  Queue rows other than the patient's in the origin and
    the destination department stay as they are. *)
Theorem refer_patient_keeps_allocation patient_id to_opd db p :
  get_patient patient_id db = Some p →
  ∃ db' p',
    refer_patient patient_id to_opd db = Ok db' ∧
    get_patient patient_id db' = Some p' ∧
    Patient.allocated_opd p' = Patient.allocated_opd p ∧
    Patient.current_room p' = Patient.current_room p ∧
    registered_as p' = registered_as p ∧
    Patient.is_dilated p' = Patient.is_dilated p ∧
    Patient.dilation_time p' = Patient.dilation_time p ∧
    Patient.completed_at p' = Patient.completed_at p ∧
    Patient.referred_from p' = value <$> Patient.allocated_opd p ∧
    patient_flow db' =
      patient_flow db ++
        [PatientFlow.mk patient_id
           (room_of <$> Patient.allocated_opd p)
           (Some ("opd_" +:+ value to_opd)) REFERRED
           (Some ("Referred from " +:+
                  from_option value "registration" (Patient.allocated_opd p)
                  +:+ " to " +:+ value to_opd))] ∧
    filter (λ q, ¬ (Queue.patient_id q = patient_id ∧
                    (Some (Queue.opd_type q) = Patient.allocated_opd p ∨
                     Queue.opd_type q = to_opd))) (queue db') =
    filter (λ q, ¬ (Queue.patient_id q = patient_id ∧
                    (Some (Queue.opd_type q) = Patient.allocated_opd p ∨
                     Queue.opd_type q = to_opd))) (queue db).
Proof.
  intros Hp. destruct (get_patient_Some _ _ _ Hp) as [_ Hid].
  destruct (refer_patient_Ok patient_id to_opd db p Hp)
    as (db' & Hdb' & Hps & Hq).
  exists db', (written (Refer patient_id to_opd) p). split; [done|].
  split.
  { destruct db' as [ps' qs' fl']. simpl in Hps. rewrite Hps.
    apply get_patient_saved; [done|eauto]. }
  repeat (split; [reflexivity|]).
  split.
  { unfold refer_patient in Hdb'. rewrite Hp in Hdb'. injection Hdb' as <-.
    reflexivity. }
  cbv zeta in Hq. rewrite Hq.
  set (R := λ q : Queue.t OPD,
         ¬ (Queue.patient_id q = patient_id ∧
            (Some (Queue.opd_type q) = Patient.allocated_opd p ∨
             Queue.opd_type q = to_opd))).
  assert (filter R (origin_marked patient_id (Patient.allocated_opd p) (queue db))
          = filter R (queue db)) as Hm.
  { destruct (Patient.allocated_opd p) as [from|]; [|done]. simpl.
    apply update_first_filter_disjoint; unfold R; intros q [? ?] Hn; simpl in *;
      apply Hn; (split; [done|left; by f_equal]). }
  destruct (first _).
  - rewrite update_first_filter_disjoint; [done|..];
      unfold R; intros q [? ?] Hn; simpl in *; apply Hn; auto.
  - rewrite filter_app, filter_cons_False, filter_nil, app_nil_r; [done|].
    unfold R. simpl. intros Hn. apply Hn. auto.
Qed.

(** X14.  A referred patient is on the referred list: after a referral of an
    existing patient the list contains the patient, with the destination's
    value as [to_opd] and the origin's as [from_opd], when it is asked
    without filters, and also when it is filtered by the destination's value,
    by the origin's value, or by both. *)
Theorem referred_patient_is_listed patient_id to_opd db p :
  get_patient patient_id db = Some p →
  ∃ db',
    refer_patient patient_id to_opd db = Ok db' ∧
    ∀ from_filter to_filter,
      from_filter = None ∨ from_filter = value <$> Patient.allocated_opd p →
      to_filter = None ∨ to_filter = Some (value to_opd) →
      ∃ resp,
        resp ∈ list_referred_patients from_filter to_filter db' ∧
        rp_id resp = patient_id ∧
        rp_to_opd resp = Some (value to_opd) ∧
        rp_from_opd resp = value <$> Patient.allocated_opd p.
Proof.
  intros Hp. destruct (get_patient_Some _ _ _ Hp) as [_ Hid].
  destruct (refer_patient_Ok patient_id to_opd db p Hp)
    as (db' & Hdb' & Hps & _).
  exists db'. split; [done|]. intros from_filter to_filter Hfrom Hto.
  set (p' := written (Refer patient_id to_opd) p).
  assert (p' ∈ patients db') as Hin.
  { assert (get_patient patient_id db' = Some p') as Hp'.
    { destruct db' as [ps' qs' fl']. simpl in Hps. rewrite Hps.
      apply get_patient_saved; [done|eauto]. }
    by apply get_patient_Some in Hp' as [? _]. }
  exists (referred_response p'). split; [|by repeat split].
  unfold list_referred_patients. apply list_elem_of_fmap.
  exists p'. split; [done|]. apply elem_of_referred_rows.
  split; [done|]. split; [done|]. split.
  - intros s [-> _]%filter_in_effect_Some.
    destruct Hfrom as [?|Hfrom]; [done|]. by rewrite Hfrom.
  - intros s [-> _]%filter_in_effect_Some.
    destruct Hto as [?|Hto]; [done|]. by rewrite Hto.
Qed.

End Queries.

(** X9, a witness of the hypotheses: two pages of the ten patients. *)
Lemma get_patients_pages_witness :
  0 ≤ 2 ∧ 0 ≤ 3 ∧ 0 ≤ 4 ∧
  Patient.id <$> (get_patients 2 3 None None ten_db ++
                  get_patients (2 + 3) 4 None None ten_db) =
    [8; 7; 6; 5; 4; 3; 2].
Proof.
  split; [lia|]. split; [lia|]. split; [lia|].
  destruct (get_patients_pages 2 3 4 None ten_db) as [Hpages _]; [lia..|].
  rewrite Hpages. vm_compute. reflexivity.
Defined.

(** X10, a witness of the hypothesis: the run that builds the scenario with
    three patients. *)
Lemma tokens_unique_witness :
  Forall well_dated
    [Register asha "20240101" 10; Register asha "20240101" 11;
     Register asha "20240101" 12; AllocateOPD 1 eye] ∧
  NoDup (Patient.token_number <$> patients three_db).
Proof.
  assert (Forall well_dated
            [Register asha "20240101" 10; Register asha "20240101" 11;
             Register asha "20240101" 12; AllocateOPD 1 (OPD := ScenarioOPD) eye])
    as Hwd by (repeat constructor).
  split; [exact Hwd|]. exact (proj1 (tokens_unique _ Hwd)).
Defined.

(** X13, a witness of the hypothesis: the referral of a patient who is
    still in registration. *)
Lemma refer_patient_keeps_allocation_witness :
  ∃ p, get_patient 1 registered_db = Some p ∧
  ∃ db' p',
    refer_patient 1 ent registered_db = Ok db' ∧
    get_patient 1 db' = Some p' ∧
    Patient.allocated_opd p' = None ∧
    Patient.referred_from p' = None.
Proof.
  destruct (get_patient 1 registered_db) as [p|] eqn:Hp;
    [|vm_compute in Hp; discriminate].
  exists p. split; [reflexivity|].
  destruct (refer_patient_keeps_allocation 1 ent registered_db p Hp)
    as (db' & p' & Href & Hp' & Hal & _ & _ & _ & _ & _ & Hfrom & _).
  exists db', p'. split; [exact Href|]. split; [exact Hp'|].
  vm_compute in Hp. injection Hp as <-. rewrite Hal, Hfrom. by split.
Defined.

(** X14, a witness of the hypothesis (scenario C): the patient referred from
    "eye" to "ent" is on the list filtered by "ent". *)
Lemma referred_patient_is_listed_witness :
  ∃ p, get_patient 1 allocated_db = Some p ∧
  ∃ db',
    refer_patient 1 ent allocated_db = Ok db' ∧
    ∃ resp, resp ∈ list_referred_patients None (Some "ent") db' ∧
            rp_id resp = 1.
Proof.
  destruct (get_patient 1 allocated_db) as [p|] eqn:Hp;
    [|vm_compute in Hp; discriminate].
  exists p. split; [reflexivity|].
  destruct (referred_patient_is_listed 1 ent allocated_db p Hp)
    as (db' & Href & Hlist).
  exists db'. split; [exact Href|].
  destruct (Hlist None (Some "ent")) as (resp & ? & ? & _); [by left|by right|].
  by exists resp.
Defined.

(** ** The allocator on an arbitrary table *)

Section Allocator.
Context `{OPDEnum OPD}.
Implicit Types (db : DB OPD) (p : Patient.t OPD).

Lemma first_order_by_desc_max (l : list (Patient.t OPD)) p :
  p ∈ l → (∀ x, x ∈ l → Patient.id x < Patient.id p ∨ x = p) →
  first (order_by_desc Patient.id l) = Some p.
Proof.
  intros Hp Hmax.
  pose proof (order_by_desc_perm Patient.id l) as Hperm.
  pose proof (order_by_desc_sorted Patient.id l) as Hsort.
  destruct (order_by_desc Patient.id l) as [|h t] eqn:E.
  { rewrite <- Hperm in Hp. by apply elem_of_nil in Hp. }
  unfold first. simpl. f_equal.
  assert (h ∈ l) as Hh by (rewrite <- Hperm; left).
  rewrite <- Hperm in Hp.
  apply elem_of_cons in Hp as [->|Hp]; [done|].
  apply StronglySorted_cons in Hsort as [Hall _].
  rewrite Forall_forall in Hall. specialize (Hall p Hp). unfold desc in Hall.
  destruct (Hmax h Hh) as [?|?]; [lia|done].
Qed.

(** X15.  On any Patient table, also one the handlers did not build, the
    allocator goes by the row with the highest id among those whose token
    starts with today's date (a run of digits), not by the highest number:
    when the last
    dash-separated part of that row's token is a run of (fewer than 4300)
    decimal digits with value n, the result is "{today}-{n+1:04d}", whatever
    numbers the other rows of the day carry. *)
Theorem generate_token_number_reads_latest today db last n :
  Text.all_digits today = true →
  last ∈ issued_today today (patients db) →
  (∀ p, p ∈ issued_today today (patients db) →
        Patient.id p < Patient.id last ∨ p = last) →
  token_seq (Patient.token_number last) = Some n →
  (String.length (Text.last_item (Text.split "-" (Patient.token_number last)))
   < 4300)%nat →
  generate_token_number today db =
    Ok (today +:+ "-" +:+ Text.fmt_04d (n + 1)).
Proof.
  intros _ Hin Hmax Hseq _. unfold generate_token_number.
  fold (issued_today today (patients db)).
  rewrite (first_order_by_desc_max _ last Hin Hmax).
  fold (token_seq (Patient.token_number last)). by rewrite Hseq.
Qed.

End Allocator.

(** X15, a witness of the hypotheses: the later of the two rows carries the
    number 2, the earlier the number 5; the next token is number 3. *)
Lemma generate_token_number_reads_latest_witness :
  generate_token_number "20240101" out_of_order_db = Ok "20240101-0003".
Proof.
  rewrite (generate_token_number_reads_latest "20240101" out_of_order_db
             (new_patient 2 "20240101-0002" asha 11) 2).
  - vm_compute. reflexivity.
  - reflexivity.
  - right. left.
  - intros p Hp. vm_compute in Hp.
    inversion Hp as [|? ? ? Hp']; subst; [left; vm_compute; reflexivity|].
    inversion Hp' as [|? ? ? Hp'']; subst; [by right|]. inversion Hp''.
  - vm_compute. reflexivity.
  - simpl. lia.
Defined.
